(** * dynamodb-utils: a shallow embedding of [src/index.js]

    The development models the three algorithmic parts of the module:
    the attribute encoder ([createAttribute], [object2Map]), the size
    accounting engine ([getObjectSize], [itemSizeCount] and the per-type
    counters) and the path addressing functions ([getPropertyPaths],
    [toStringPath], [toArrayPath], [hasPropertyAtPath],
    [getAttributeAtPath]).

    JavaScript values are a first-order inductive type; a call that raises
    a [TypeError] in JavaScript returns [Throw TypeError] here. *)

From Stdlib Require Import String Ascii List ZArith QArith Qround Qabs Lia Bool Arith.
From Stdlib Require Import DecimalString DecimalN Nnat.
Import ListNotations.

Set Warnings "-register-all".

Open Scope list_scope.
Open Scope nat_scope.
Open Scope string_scope.

(* ================================================================== *)
(** ** Strings *)

(** A JavaScript string is modelled by a Rocq [string] whose characters are
    its UTF-16 code units, restricted to the range 0..255.  In that range
    every character is one code unit, so [s.length] is [String.length]. *)

Module JsString.

(** Characters removed by [String.prototype.trim] (those below U+0100):
    TAB, LF, VT, FF, CR, SPACE and NO-BREAK SPACE. *)
Definition is_white_space (c : ascii) : bool :=
  let n := nat_of_ascii c in
  ((n =? 9) || (n =? 10) || (n =? 11) || (n =? 12) || (n =? 13)
   || (n =? 32) || (n =? 160))%nat.

Fixpoint trim_start (s : string) : string :=
  match s with
  | EmptyString => EmptyString
  | String c s' => if is_white_space c then trim_start s' else s
  end.

Definition reverse (s : string) : string :=
  string_of_list_ascii (rev (list_ascii_of_string s)).

(** [s.trim()] *)
Definition trim (s : string) : string :=
  reverse (trim_start (reverse (trim_start s))).

(** Number of bytes of the UTF-8 encoding of one character: code points
    below U+0080 take one byte, those in U+0080..U+00FF take two. *)
Definition utf8_width (c : ascii) : nat :=
  if (nat_of_ascii c <? 128)%nat then 1 else 2.

Fixpoint utf8_length (s : string) : nat :=
  match s with
  | EmptyString => 0
  | String c s' => utf8_width c + utf8_length s'
  end.

(** [s.includes(t)] *)
Fixpoint includes (s t : string) : bool :=
  if prefix t s then true
  else match s with
       | EmptyString => false
       | String _ s' => includes s' t
       end.

(** [s.split(sep)].  [skip] counts the characters of a separator
    occurrence that are still to be passed over, [acc] is the piece
    being read.  An empty separator splits into single characters. *)
Fixpoint split_from (sep : string) (skip : nat) (acc s : string)
  : list string :=
  match s with
  | EmptyString => [acc]
  | String c s' =>
      match skip with
      | S k => split_from sep k acc s'
      | O => if prefix sep s
             then acc :: split_from sep (String.length sep - 1) "" s'
             else split_from sep 0 (acc ++ String c "") s'
      end
  end.

Definition split (s sep : string) : list string :=
  match sep with
  | EmptyString =>
      map (fun c => String c "") (list_ascii_of_string s)
  | _ => split_from sep 0 "" s
  end.

(** [a.join(sep)] on an array of strings. *)
Definition join (sep : string) (l : list string) : string :=
  String.concat sep l.

Fixpoint repeat (c : ascii) (n : nat) : string :=
  match n with
  | O => EmptyString
  | S k => String c (repeat c k)
  end.

(** The decimal digits of a natural number, as [i.toString()] gives
    them for an array index or a length. *)
Definition of_nat (n : nat) : string :=
  NilZero.string_of_uint (N.to_uint (N.of_nat n)).

Definition of_pos (p : positive) : string :=
  NilZero.string_of_uint (Pos.to_uint p).

Definition take (n : nat) (s : string) : string := substring 0 n s.
Definition drop (n : nat) (s : string) : string :=
  substring n (String.length s - n) s.

End JsString.

(* ================================================================== *)
(** ** Numbers *)

(** A JavaScript number is observed by this module only through
    [isFinite], [toString] and comparison.  An integer is [Int z]; any
    finite non-zero number can be given as [Dec neg s n], the decimal
    the specification of [Number::toString] starts from: the digits [s]
    (an integer of [k] decimal digits, [k] as small as possible) and the
    exponent [n], with value [s * 10^(n-k)]. *)
Inductive number : Type :=
| NaN
| Infinity (negative : bool)
| Int (z : Z)
| Dec (negative : bool) (s : positive) (n : Z).

Module JsNumber.

Definition isFinite (x : number) : bool :=
  match x with
  | NaN | Infinity _ => false
  | Int _ | Dec _ _ _ => true
  end.

Definition exponent_suffix (n : Z) : string :=
  let e := (n - 1)%Z in
  "e" ++ (if (e <? 0)%Z then "-" else "+")
      ++ JsString.of_nat (Z.abs_nat e).

(** The notation [Number::toString] chooses for the digits [s] and the
    exponent [n]. *)
Definition decimal_form (neg : bool) (s : positive) (n : Z) : string :=
  let ds := JsString.of_pos s in
  let k := Z.of_nat (String.length ds) in
  let body :=
    if ((k <=? n) && (n <=? 21))%Z then
      ds ++ JsString.repeat "0" (Z.to_nat (n - k))
    else if ((0 <? n) && (n <=? 21))%Z then
      JsString.take (Z.to_nat n) ds ++ "."
        ++ JsString.drop (Z.to_nat n) ds
    else if ((-6 <? n) && (n <=? 0))%Z then
      "0." ++ JsString.repeat "0" (Z.to_nat (- n)) ++ ds
    else if (k =? 1)%Z then
      ds ++ exponent_suffix n
    else
      JsString.take 1 ds ++ "." ++ JsString.drop 1 ds
        ++ exponent_suffix n
  in if neg then "-" ++ body else body.

(** [p] without its trailing zeros. *)
Fixpoint strip_zeros (fuel : nat) (p : positive) : positive :=
  match fuel with
  | O => p
  | S f =>
      if (Zpos p mod 10 =? 0)%Z
      then strip_zeros f (Z.to_pos (Zpos p / 10))
      else p
  end.

Definition integer_form (neg : bool) (p : positive) : string :=
  let n := String.length (JsString.of_pos p) in
  decimal_form neg (strip_zeros n p) (Z.of_nat n).

(** [Number::toString(x)] in radix 10. *)
Definition toString (x : number) : string :=
  match x with
  | NaN => "NaN"
  | Infinity false => "Infinity"
  | Infinity true => "-Infinity"
  | Int Z0 => "0"
  | Int (Zpos p) => integer_form false p
  | Int (Zneg p) => integer_form true p
  | Dec neg s n => decimal_form neg s n
  end.

(** The number whose value is the natural [m]. *)
Definition of_nat (m : nat) : number := Int (Z.of_nat m).

End JsNumber.

(* ================================================================== *)
(** ** Values and exceptions *)

(** Objects are property lists in enumeration order ([Object.keys]
    order) without repeated keys.  Every object the modelled functions
    build is filled in the enumeration order of the object it is built
    from, so appending a new key keeps that order. *)
Inductive value : Type :=
| VUndefined
| VNull
| VBool (b : bool)
| VNum (x : number)
| VStr (s : string)
| VArr (elems : list value)
| VObj (props : list (string * value)).

Inductive error : Type := TypeError.

Inductive result (A : Type) : Type :=
| Ok (a : A)
| Throw (e : error).
Arguments Ok {A} a.
Arguments Throw {A} e.

Definition bind {A B} (r : result A) (f : A -> result B) : result B :=
  match r with
  | Ok a => f a
  | Throw e => Throw e
  end.

Notation "x <- r ;; k" := (bind r (fun x => k))
  (at level 61, r at next level, right associativity).

(* ================================================================== *)
(** ** Property access *)

Module Js.

(** [typeof v === 'object' && v instanceof Object] *)
Definition isObject (o : value) : bool :=
  match o with
  | VArr _ | VObj _ => true
  | _ => false
  end.

(** [typeof v === 'object' && v instanceof Array] *)
Definition isArray (a : value) : bool :=
  match a with
  | VArr _ => true
  | _ => false
  end.

(** The array index a property key denotes, if it is the canonical
    decimal form of a natural number. *)
Definition index_of_key (k : string) : option nat :=
  match NilZero.uint_of_string k with
  | Some u =>
      let i := N.to_nat (N.of_uint u) in
      if String.eqb (JsString.of_nat i) k then Some i else None
  | None => None
  end.

Fixpoint lookup (k : string) (props : list (string * value))
  : option value :=
  match props with
  | [] => None
  | (k', v) :: rest => if String.eqb k k' then Some v else lookup k rest
  end.

Definition chars (s : string) : list value :=
  map (fun c => VStr (String c "")) (list_ascii_of_string s).

(** The own property [k] of a value that has properties: an element or
    the [length] of an array or string, a property of an object. *)
Definition own (elems : list value) (k : string) : option value :=
  if String.eqb k "length" then Some (VNum (JsNumber.of_nat (length elems)))
  else match index_of_key k with
       | Some i => nth_error elems i
       | None => None
       end.

Definition is_some {A} (o : option A) : bool :=
  match o with Some _ => true | None => false end.

(** [v.hasOwnProperty(k)]: reading a property of [null] or [undefined]
    raises, and so does the call on an object whose own property
    [hasOwnProperty] hides the method (no value is a function). *)
Definition hasOwnProperty (v : value) (k : string) : result bool :=
  match v with
  | VUndefined | VNull => Throw TypeError
  | VBool _ | VNum _ => Ok false
  | VStr s => Ok (is_some (own (chars s) k))
  | VArr l => Ok (is_some (own l k))
  | VObj props =>
      if is_some (lookup "hasOwnProperty" props) then Throw TypeError
      else Ok (is_some (lookup k props))
  end.

(** [v[k]] for an own property [k]; a missing property reads as
    [undefined].  Properties inherited from a prototype are not
    modelled: the functions below read a key only after
    [hasOwnProperty], from [Object.keys], or as an index. *)
Definition get (v : value) (k : string) : result value :=
  match v with
  | VUndefined | VNull => Throw TypeError
  | VBool _ | VNum _ => Ok VUndefined
  | VStr s => Ok (match own (chars s) k with Some x => x | None => VUndefined end)
  | VArr l => Ok (match own l k with Some x => x | None => VUndefined end)
  | VObj props =>
      Ok (match lookup k props with Some x => x | None => VUndefined end)
  end.

Fixpoint indexed_from (i : nat) (l : list value) : list (string * value) :=
  match l with
  | [] => []
  | x :: rest => (JsString.of_nat i, x) :: indexed_from (S i) rest
  end.

(** [Object.entries(v)] *)
Definition entries (v : value) : result (list (string * value)) :=
  match v with
  | VUndefined | VNull => Throw TypeError
  | VBool _ | VNum _ => Ok []
  | VStr s => Ok (indexed_from 0 (chars s))
  | VArr l => Ok (indexed_from 0 l)
  | VObj props => Ok props
  end.

(** [Object.keys(v)] *)
Definition keys (v : value) : result (list string) :=
  es <- entries v ;; Ok (map fst es).

(** [Object.defineProperty(o, k, {value: v, enumerable: true, ...})] on
    a property list: an existing key keeps its place and a new key is
    listed last.  That is the place of a new key in the enumeration
    unless the key is an integer index, which is enumerated before the
    keys that are not; the functions below define keys in the order in
    which another object enumerates them. *)
Fixpoint defineProperty (props : list (string * value)) (k : string)
  (v : value) : list (string * value) :=
  match props with
  | [] => [(k, v)]
  | (k', v') :: rest =>
      if String.eqb k k' then (k, v) :: rest
      else (k', v') :: defineProperty rest k v
  end.

End Js.

(** [addObjectProperty(object, key, value)] on the property list of
    [object]. *)
Definition addObjectProperty (object : list (string * value)) (key : string)
  (v : value) : list (string * value) :=
  Js.defineProperty object key v.

(** [isObject(o)] and [isArray(a)] of the source. *)
Definition isObject (o : value) : bool := Js.isObject o.
Definition isArray (a : value) : bool := Js.isArray a.

(* ================================================================== *)
(** ** Size accounting *)

(** A field name is a string, or [undefined] ([None]);
    [name.length] raises on [undefined]. *)
Definition name_length (name : option string) : result nat :=
  match name with
  | Some s => Ok (String.length s)
  | None => Throw TypeError
  end.

(** [byteCount(s)]: the UTF-8 length of a string, [undefined] ([None])
    for any other argument. *)
Definition byteCount (s : value) : option nat :=
  match s with
  | VStr t => Some (JsString.utf8_length t)
  | _ => None
  end.

(** [x.toFixed(2) * 1] for [x >= 0]: the closest multiple of 1/100, the
    larger one on a tie. *)
Definition toFixed2 (x : Q) : Q := (Qfloor (x * 100 + (1 # 2)) # 100)%Q.

(** [toKilobyte(n)] on a byte count, as the multiple of 1/100 that
    [toFixed(2)] prints; the number returned is the double closest to
    it.  [n / 1024] is exact in binary floating point, and the ceiling
    taken by [itemSizeCount] of the double closest to a multiple of
    1/100 is the ceiling of that multiple. *)
Definition toKilobyte (n : nat) : Q :=
  toFixed2 (inject_Z (Z.of_nat n) / 1024)%Q.

(** [kilobyteCount(s)] *)
Definition kilobyteCount (s : value) : option Q :=
  option_map toKilobyte (byteCount s).

Definition Math_ceil (x : Q) : Z := Qceiling x.

(** [stringSizeCount(name, s)] *)
Definition stringSizeCount (name : option string) (s : string) : result nat :=
  len <- name_length name ;;
  Ok (len + JsString.utf8_length s).

(** The loop [for (i; i <= fpartLength; i += 2) { size += 2 }]. *)
Fixpoint fpart_loop (fuel i fpartLength size : nat) : nat :=
  match fuel with
  | O => size
  | S f =>
      if (i <=? fpartLength)%nat
      then fpart_loop f (i + 2) fpartLength (size + 2)
      else size
  end.

(** [numberSizeCount(name, n)] *)
Definition numberSizeCount (name : option string) (n : number) : result nat :=
  len <- name_length name ;;
  let size := len + 1 in
  if JsString.includes (JsNumber.toString n) "."
  then
    let fpart := nth 1 (JsString.split (JsNumber.toString n) ".") "" in
    let fpartLength := String.length fpart in
    Ok (fpart_loop (S fpartLength) 0 fpartLength size)
  else Ok size.

(** [binarySizeCOunt(name, b)] on a byte array of [b_length] bytes. *)
Definition binarySizeCOunt (name : option string) (b_length : nat)
  : result nat :=
  len <- name_length name ;;
  Ok (len + b_length).

(** [nullBoolSizeCount(name, nb)] *)
Definition nullBoolSizeCount (name : option string) (nb : value)
  : result nat :=
  match nb with
  | VNull | VBool _ => len <- name_length name ;; Ok (len + 1)
  | _ => Ok 0
  end.

(** [getObjectSize(e)], the call with one argument that [arraySizeCount]
    makes for an element [e]: the element is bound to the parameter
    [name] and the parameter [o] is [undefined]; [typeof o] is
    ['undefined'], no case of the switch applies, [name] is not read and
    the size stays 0. *)
Definition getObjectSize_unary (e : value) : result nat := Ok 0.

(** [getObjectSize(name, o)], with the loops of [arraySizeCount] and
    [objectSizeCount] as local recursions over the elements and the
    properties. *)
Fixpoint getObjectSize (name : option string) (o : value) {struct o}
  : result nat :=
  match o with
  | VStr s => stringSizeCount name s
  | VNum x => if JsNumber.isFinite x then numberSizeCount name x else Ok 0
  | VBool _ => nullBoolSizeCount name o
  | VArr a =>
      len <- name_length name ;;
      (fix each (l : list value) (size : nat) {struct l} : result nat :=
         match l with
         | [] => Ok size
         | e :: rest =>
             n <- getObjectSize_unary e ;;
             each rest (size + (3 + n))
         end) a (len + 3)
  | VObj props =>
      len <- name_length name ;;
      (fix each (l : list (string * value)) (size : nat) {struct l}
         : result nat :=
         match l with
         | [] => Ok size
         | (k, v) :: rest =>
             n <- getObjectSize (Some k) v ;;
             each rest (size + (3 + n))
         end) props (len + 3)
  | VNull => nullBoolSizeCount name VNull
  | VUndefined => Ok 0
  end.

(** The loop [a.map((e) => { size += (3 + getObjectSize(e)) })]. *)
Fixpoint array_loop (l : list value) (size : nat) : result nat :=
  match l with
  | [] => Ok size
  | e :: rest =>
      n <- getObjectSize_unary e ;;
      array_loop rest (size + (3 + n))
  end.

(** [arraySizeCount(name, a)] *)
Definition arraySizeCount (name : option string) (a : list value)
  : result nat :=
  len <- name_length name ;;
  array_loop a (len + 3).

(** The loop [keys.map((k) => { size += (3 + getObjectSize(k, o[k])) })]. *)
Fixpoint object_loop (l : list (string * value)) (size : nat) : result nat :=
  match l with
  | [] => Ok size
  | (k, v) :: rest =>
      n <- getObjectSize (Some k) v ;;
      object_loop rest (size + (3 + n))
  end.

(** [objectSizeCount(name, o)] *)
Definition objectSizeCount (name : option string)
  (o : list (string * value)) : result nat :=
  len <- name_length name ;;
  object_loop o (len + 3).

(** The loop [keys.map((k) => { size += getObjectSize(k, item[k]) })];
    [item[k]] is the value listed with the key [k]. *)
Fixpoint item_loop (l : list (string * value)) (size : nat) : result nat :=
  match l with
  | [] => Ok size
  | (k, v) :: rest =>
      n <- getObjectSize (Some k) v ;;
      item_loop rest (size + n)
  end.

(** [itemSizeCount(item)].  [item instanceof Object] holds for objects
    and for arrays, whose keys are their indices. *)
Definition itemSizeCount (item : value) : result value :=
  if Js.isObject item then
    es <- Js.entries item ;;
    if (0 <? length es)%nat then
      size <- item_loop es 0 ;;
      Ok (VNum (JsNumber.of_nat (Z.to_nat (Math_ceil (toKilobyte size)))))
    else Ok VUndefined
  else Ok VUndefined.

(* ================================================================== *)
(** ** Attribute encoding *)

(** The loop of [object2Map]:
    [Object.keys(o).map((k) => { ... Object.defineProperty(mapValue, k, ...) })].
    The encoded property is an object, so the test [if (newProperty)]
    always passes. *)
Fixpoint map_loop (encode : value -> value) (es : list (string * value))
  (mapValue : list (string * value)) : list (string * value) :=
  match es with
  | [] => mapValue
  | (k, property) :: rest =>
      map_loop encode rest (Js.defineProperty mapValue k (encode property))
  end.

(** [Object.assign(target, source)] on property lists. *)
Fixpoint Object_assign (target source : list (string * value))
  : list (string * value) :=
  match source with
  | [] => target
  | (k, v) :: rest => Object_assign (Js.defineProperty target k v) rest
  end.

(** The result of [object2Map] on a property list: [{'M': mapValue}] when
    some key was defined, the fallback otherwise. *)
Definition map_or_null (fallback : value) (mapValue : list (string * value))
  : value :=
  if (0 <? length mapValue)%nat then VObj [("M", VObj mapValue)]
  else fallback.

(** Body of [createAttribute], with the value of the closing call
    [createAttribute(null)] as [fallback].  The branches for the wrapper
    classes ([String], [Number], [ArrayBuffer], [Boolean]) come after
    [o instanceof Object] in the source and [value] has no such
    objects. *)
Fixpoint createAttributeWith (fallback : value) (o : value) {struct o}
  : value :=
  let newProperty : list (string * value) :=
    match o with
    | VStr s =>
        if (0 <? String.length (JsString.trim s))%nat
        then addObjectProperty [] "S" (VStr (JsString.trim s))
        else []
    | VNum x =>
        if JsNumber.isFinite x
        then addObjectProperty [] "N" (VStr (JsNumber.toString x))
        else []
    | VBool _ => addObjectProperty [] "BOOL" o
    | VArr a =>
        addObjectProperty [] "L" (VArr (map (createAttributeWith fallback) a))
    | VObj props =>
        match map_or_null fallback
                (map_loop (createAttributeWith fallback) props []) with
        | VObj source => Object_assign [] source
        | _ => []
        end
    | VNull => addObjectProperty [] "NULL" (VBool true)
    | VUndefined => []
    end
  in
  if (0 <? length newProperty)%nat then VObj newProperty else fallback.

(** [createAttribute(o)].  The closing call [createAttribute(null)] takes
    the [o === null] branch, which sets [NULL] and so never reaches the
    closing call again: the recursion is tied after one unfolding. *)
Definition createAttribute (o : value) : value :=
  createAttributeWith (createAttributeWith VUndefined VNull) o.

(** [object2Map(o)]: [typeof o === 'object'] holds for [null], on which
    [Object.keys] raises. *)
Definition object2Map (o : value) : result value :=
  match o with
  | VNull | VArr _ | VObj _ =>
      es <- Js.entries o ;;
      Ok (map_or_null (createAttribute VNull) (map_loop createAttribute es []))
  | _ => Ok (createAttribute VNull)
  end.

(** [objectOrNull(o)] and [attributeOrNull(a)]: [!o] holds for
    [undefined], [null], [false], [NaN], zero and the empty string. *)
Definition falsy (v : value) : bool :=
  match v with
  | VUndefined | VNull | VBool false | VNum NaN | VNum (Int Z0) | VStr "" => true
  | _ => false
  end.

Definition objectOrNull (o : value) : value := if falsy o then VNull else o.

Definition attributeOrNull (a : value) : value :=
  if falsy a then createAttribute VNull else a.

(* ================================================================== *)
(** ** Conversions used by the path functions *)

Module Conv.

(** [ToString(v)], which is also the property key [v] denotes. *)
Fixpoint toStr (v : value) : string :=
  match v with
  | VUndefined => "undefined"
  | VNull => "null"
  | VBool true => "true"
  | VBool false => "false"
  | VNum x => JsNumber.toString x
  | VStr s => s
  | VArr l =>
      JsString.join ","
        (map (fun e => match e with
                       | VUndefined | VNull => ""
                       | _ => toStr e
                       end) l)
  | VObj _ => "[object Object]"
  end.

(** [!!v] *)
Definition truthy (v : value) : bool := negb (falsy v).

(** The value of a numeric string: not a number, an infinity, or an
    exact rational. *)
Inductive numeric : Type :=
| NotANumber
| Infinite (negative : bool)
| Exact (q : Q).

Definition digit_value (base : nat) (c : ascii) : option nat :=
  let n := nat_of_ascii c in
  let d :=
    if ((48 <=? n) && (n <=? 57))%nat then Some (n - 48)
    else if ((97 <=? n) && (n <=? 102))%nat then Some (n - 87)
    else if ((65 <=? n) && (n <=? 70))%nat then Some (n - 55)
    else None in
  match d with
  | Some k => if (k <? base)%nat then Some k else None
  | None => None
  end.

(** The natural a non-empty string of digits denotes in [base]. *)
Fixpoint digits_from (base : nat) (acc : N) (s : string) : option N :=
  match s with
  | EmptyString => Some acc
  | String c s' =>
      match digit_value base c with
      | Some d => digits_from base (acc * N.of_nat base + N.of_nat d)%N s'
      | None => None
      end
  end.

Definition digits (base : nat) (s : string) : option N :=
  match s with
  | EmptyString => None
  | _ => digits_from base 0%N s
  end.

(** The pieces of [s] before and after the first character satisfying
    [p]; the second is [None] when there is no such character. *)
Fixpoint cut (p : ascii -> bool) (s : string) : string * option string :=
  match s with
  | EmptyString => (EmptyString, None)
  | String c s' =>
      if p c then (EmptyString, Some s')
      else let (a, b) := cut p s' in (String c a, b)
  end.

Definition is_char (a b : ascii) : bool := Ascii.eqb a b.

(** The natural a non-empty string of decimal digits denotes. *)
Definition decimal_digits (s : string) : option N :=
  option_map N.of_uint (NilZero.uint_of_string s).

(** A signed decimal exponent [[+-]?digits]. *)
Definition exponent (s : string) : option Z :=
  match s with
  | String "+" r => option_map Z.of_N (decimal_digits r)
  | String "-" r => option_map (fun n => (- Z.of_N n)%Z) (decimal_digits r)
  | _ => option_map Z.of_N (decimal_digits s)
  end.

(** An unsigned decimal literal: [digits], [digits.], [digits.digits] or
    [.digits], each with an optional exponent. *)
Definition decimal (s : string) : option Q :=
  let (mantissa, ex) := cut (fun c => is_char c "e" || is_char c "E") s in
  let (ip, fp) := cut (fun c => is_char c ".") mantissa in
  let fp' := match fp with Some f => f | None => "" end in
  match decimal_digits (ip ++ fp') with
  | None => None
  | Some m =>
      let e := match ex with
               | None => Some 0%Z
               | Some x => exponent x
               end in
      match e with
      | None => None
      | Some e' =>
          Some (inject_Z (Z.of_N m)
                * Qpower 10 (e' - Z.of_nat (String.length fp')))%Q
      end
  end.

Definition radix_literal (base : nat) (s : string) : numeric :=
  match digits base s with
  | Some n => Exact (inject_Z (Z.of_N n))
  | None => NotANumber
  end.

(** The base and the digits of a literal that starts with [0x], [0o] or
    [0b], in either case of the letter. *)
Definition radix_prefix (t : string) : option (nat * string) :=
  match t with
  | String c1 (String c2 r) =>
      if is_char c1 "0" then
        if is_char c2 "x" || is_char c2 "X" then Some (16, r)
        else if is_char c2 "o" || is_char c2 "O" then Some (8, r)
        else if is_char c2 "b" || is_char c2 "B" then Some (2, r)
        else None
      else None
  | _ => None
  end.

Definition unsigned_literal (t : string) : numeric :=
  if String.eqb t "Infinity" then Infinite false
  else match decimal t with
       | Some q => Exact q
       | None => NotANumber
       end.

Definition negate (x : numeric) : numeric :=
  match x with
  | NotANumber => NotANumber
  | Infinite neg => Infinite (negb neg)
  | Exact q => Exact (- q)
  end.

(** [StringToNumber(s)], before rounding to a double. *)
Definition stringToNumber (s : string) : numeric :=
  match JsString.trim s with
  | EmptyString => Exact 0
  | String c r as t =>
      match radix_prefix t with
      | Some (base, ds) => radix_literal base ds
      | None =>
          if is_char c "+" then unsigned_literal r
          else if is_char c "-" then negate (unsigned_literal r)
          else unsigned_literal t
      end
  end.

(** Literals at or beyond [2^1024 - 2^970] round to an infinity. *)
Definition overflow_bound : Q := inject_Z (2 ^ 1024 - 2 ^ 970).

(** The global [isFinite(s)] on a string. *)
Definition isFinite_string (s : string) : bool :=
  match stringToNumber s with
  | Exact q => negb (Qle_bool overflow_bound (Qabs q))
  | _ => false
  end.

(** The exact value of a number. *)
Definition numeric_of_number (x : number) : numeric :=
  match x with
  | NaN => NotANumber
  | Infinity neg => Infinite neg
  | Int z => Exact (inject_Z z)
  | Dec neg s n =>
      let k := Z.of_nat (String.length (JsString.of_pos s)) in
      let q := (inject_Z (Zpos s) * Qpower 10 (n - k))%Q in
      Exact (if neg then (- q)%Q else q)
  end.

Definition numeric_lt (a b : numeric) : bool :=
  match a, b with
  | NotANumber, _ | _, NotANumber => false
  | Infinite true, Infinite true => false
  | Infinite true, _ => true
  | _, Infinite true => false
  | Infinite false, _ => false
  | _, Infinite false => true
  | Exact p, Exact q => negb (Qle_bool q p)
  end.

(** [ToNumber(v)] for a primitive that is not a string. *)
Definition numeric_of_primitive (v : value) : numeric :=
  match v with
  | VUndefined => NotANumber
  | VNull => Exact 0
  | VBool true => Exact 1
  | VBool false => Exact 0
  | VNum x => numeric_of_number x
  | VStr s => stringToNumber s
  | _ => NotANumber
  end.

(** [s < v] for a string [s]: code-unit order when [v] converts to a
    string, numeric order otherwise.  The numeric comparison is decided
    on the exact value of the literal [s], which is the comparison of
    the doubles when the literal is a whole number below [2 ^ 53], as a
    list index is. *)
Definition string_lt (s : string) (v : value) : bool :=
  match v with
  | VStr _ | VArr _ | VObj _ => String.ltb s (toStr v)
  | _ => numeric_lt (stringToNumber s) (numeric_of_primitive v)
  end.

End Conv.

(* ================================================================== *)
(** ** Path index *)

(** [getPropertyPaths] calls itself on objects it builds, also from its
    own results, so the model recurses on a bound [fuel] of nested calls:
    [None] means the bound was reached. *)
Definition fueled (A : Type) : Type := option (result A).

Definition fbind {A B} (m : fueled A) (f : A -> fueled B) : fueled B :=
  match m with
  | None => None
  | Some (Throw e) => Some (Throw e)
  | Some (Ok a) => f a
  end.

Definition fret {A} (a : A) : fueled A := Some (Ok a).

Notation "x <~ m ;; k" := (fbind m (fun x => k))
  (at level 61, m at next level, right associativity).

(** The callback of [pValue.map((p, i) => ...)] run over the elements
    from index [i] on, [pathsArray] collecting the pushed steps. *)
Fixpoint array_steps (self : value -> fueled value) (l : list value)
  (i : nat) (pathsArray : list value) : fueled (list value) :=
  match l with
  | [] => fret pathsArray
  | p :: rest =>
      p1 <~ Some (Js.get p "1") ;;
      subValue <~ (if isObject p1
                   then self (VObj (addObjectProperty [] (JsString.of_nat i) p))
                   else fret p) ;;
      step <~ self (VObj (addObjectProperty [] (JsString.of_nat i) subValue)) ;;
      array_steps self rest (S i) (pathsArray ++ [step])%list
  end.

(** The callback of [Object.entries(pValue).map((p) => ...)]. *)
Fixpoint object_steps (self : value -> fueled value)
  (es : list (string * value)) (pathsArray : list value)
  : fueled (list value) :=
  match es with
  | [] => fret pathsArray
  | (k, v) :: rest =>
      step <~ self (VObj (addObjectProperty [] k v)) ;;
      object_steps self rest (pathsArray ++ [step])%list
  end.

(** The callback of [Object.entries(o).map((prop) => ...)]. *)
Fixpoint entries_loop (self : value -> fueled value)
  (es : list (string * value)) (pathsObject : list (string * value))
  : fueled (list (string * value)) :=
  match es with
  | [] => fret pathsObject
  | (pKey, pValue) :: rest =>
      pathsArray <~ match pValue with
                    | VArr l => array_steps self l 0 []
                    | VObj ps => object_steps self ps []
                    | _ => fret []
                    end ;;
      entries_loop self rest
        (addObjectProperty pathsObject pKey (VArr pathsArray))
  end.

(** [getPropertyPaths(o)] *)
Fixpoint getPropertyPaths (fuel : nat) (o : value) : fueled value :=
  match fuel with
  | O => None
  | S f =>
      es <~ Some (Js.entries o) ;;
      pathsObject <~ entries_loop (getPropertyPaths f) es [] ;;
      fret (VObj pathsObject)
  end.

(* ================================================================== *)
(** ** Path resolution against the index *)

(** [typeof e === 'string'] for every element. *)
Definition all_strings (l : list value) : bool :=
  forallb (fun e => match e with VStr _ => true | _ => false end) l.

(** [p.find((e) => e.hasOwnProperty(currentProperty))] on the elements
    of an array; [None] is [undefined]. *)
Fixpoint find_step (l : list value) (currentProperty : string)
  : result (option value) :=
  match l with
  | [] => Ok None
  | e :: rest =>
      b <- Js.hasOwnProperty e currentProperty ;;
      if b then Ok (Some e) else find_step rest currentProperty
  end.

(** [p.find(...)]: only an array has a [find] method. *)
Definition find (p : value) (currentProperty : string)
  : result (option value) :=
  match p with
  | VArr l => find_step l currentProperty
  | _ => Throw TypeError
  end.

(** One call of the reducer of [toStringPath]; the conditional reads
    [(nextPathObject && nextPathObject[c] instanceof Array) ? ... : ...]. *)
Definition toStringPath_step (p : value) (currentProperty : string)
  : result value :=
  match p with
  | VNull => Ok VNull
  | _ =>
      nextPathObject <- find p currentProperty ;;
      let found := match nextPathObject with
                   | Some e => e
                   | None => VUndefined
                   end in
      child <- (if Conv.truthy found then Js.get found currentProperty
                else Ok VUndefined) ;;
      shouldAssignNextProperty <-
        (if Conv.truthy found && isArray child
         then match child with
              | VArr c => Ok (0 <? length c)%nat
              | _ => Ok false
              end
         else Js.hasOwnProperty found currentProperty) ;;
      if (shouldAssignNextProperty : bool)
      then Js.get found currentProperty
      else Ok VNull
  end.

(** One call of the reducer of [toArrayPath]. *)
Definition toArrayPath_step (p : value) (currentProperty : string)
  : result value :=
  match p with
  | VNull => Ok VNull
  | _ =>
      nextPathObject <- find p currentProperty ;;
      match nextPathObject with
      | Some e =>
          if Conv.truthy e
          then b <- Js.hasOwnProperty e currentProperty ;;
               if (b : bool) then Js.get e currentProperty else Ok VNull
          else Ok VNull
      | None => Ok VNull
      end
  end.

(** [tokens.reduce((previous, current) => { ...; return current })]
    without an initial value: the reducer runs on every token but the
    first, and an empty array raises. *)
Fixpoint reduce_tokens (step : value -> string -> result value)
  (rest : list string) (p : value) : result value :=
  match rest with
  | [] => Ok p
  | current :: rest' =>
      p' <- step p current ;;
      reduce_tokens step rest' p'
  end.

Definition reduce (step : value -> string -> result value)
  (tokens : list string) (p : value) : result value :=
  match tokens with
  | [] => Throw TypeError
  | _ :: rest => reduce_tokens step rest p
  end.

(** The default parameter [delimiter = '.']. *)
Definition default_delimiter (delimiter : value) : value :=
  match delimiter with
  | VUndefined => VStr "."
  | _ => delimiter
  end.

(** The strings of an array of strings. *)
Definition strings_of (l : list value) : list string := map Conv.toStr l.

(** [toStringPath(paths, propertyNames, delimiter)]; [undefined] when the
    function ends without [return]. *)
Definition toStringPath (paths propertyNames delimiter : value)
  : result value :=
  let delimiter := default_delimiter delimiter in
  match propertyNames with
  | VArr names =>
      if isObject paths && all_strings names then
        let first := Conv.toStr (nth 0 names VUndefined) in
        legitFirstCheck <- Js.hasOwnProperty paths first ;;
        if (legitFirstCheck : bool) then
          p0 <- Js.get paths first ;;
          p <- reduce toStringPath_step (strings_of names) p0 ;;
          match p with
          | VNull => Ok VUndefined
          | _ => Ok (VStr (JsString.join (Conv.toStr delimiter)
                             (strings_of names)))
          end
        else Ok VUndefined
      else Ok VUndefined
  | _ => Ok VUndefined
  end.

(** [propertyString.split(delimiter)]: the call raises unless
    [propertyString] is a string. *)
Definition split_value (propertyString delimiter : value)
  : result (list string) :=
  match propertyString with
  | VStr s => Ok (JsString.split s (Conv.toStr delimiter))
  | _ => Throw TypeError
  end.

(** [toArrayPath(paths, propertyString, delimiter)] *)
Definition toArrayPath (paths propertyString delimiter : value)
  : result value :=
  let delimiter := default_delimiter delimiter in
  let propertyPathCheck :=
    isObject paths
    && match propertyString with VStr _ => true | _ => false end in
  properties <- split_value propertyString delimiter ;;
  if propertyPathCheck then
    let first := Conv.toStr (nth 0 (map VStr properties) VUndefined) in
    legitFirstCheck <- Js.hasOwnProperty paths first ;;
    if (legitFirstCheck : bool) then
      p0 <- Js.get paths first ;;
      p <- reduce toArrayPath_step properties p0 ;;
      match p with
      | VNull => Ok VUndefined
      | _ => Ok (VArr (map VStr properties))
      end
    else Ok VUndefined
  else Ok VUndefined.

(* ================================================================== *)
(** ** Path resolution against a plain value *)

(** [hasPropertyAtPath(item, path)] on an array [path].  The callback of
    [path.map((p, i) => ...)] tests every token against [item] itself
    and, when [item] owns it, overwrites [propertyFound] with the result
    for [item[p]] and [path.slice(i + 1)]. *)
Fixpoint hasPropertyAtPath_array (item : value) (path : list value)
  {struct path} : result bool :=
  match path with
  | [p] => Js.hasOwnProperty item (Conv.toStr p)
  | _ =>
      (fix each (rest : list value) (propertyFound : bool) {struct rest}
         : result bool :=
         match rest with
         | [] => Ok propertyFound
         | p :: slice =>
             owned <- Js.hasOwnProperty item (Conv.toStr p) ;;
             if (owned : bool) then
               child <- Js.get item (Conv.toStr p) ;;
               found <- hasPropertyAtPath_array child slice ;;
               each slice found
             else each slice propertyFound
         end) path false
  end.

(** [hasPropertyAtPath(item, pathChain, delimiter)] *)
Definition hasPropertyAtPath (item pathChain delimiter : value)
  : result value :=
  let delimiter := default_delimiter delimiter in
  let path : option (list value) :=
    match pathChain, delimiter with
    | VArr l, _ => Some l
    | VStr s, VStr d => Some (map VStr (JsString.split s d))
    | _, _ => None
    end in
  match path with
  | None => Ok (VBool false)
  | Some l => b <- hasPropertyAtPath_array item l ;; Ok (VBool b)
  end.

(* ================================================================== *)
(** ** Path resolution against an attribute tree *)

Definition scalar_code (c : string) : bool :=
  String.eqb c "S" || String.eqb c "N" || String.eqb c "B"
  || String.eqb c "NULL" || String.eqb c "BOOL".

Definition list_code (c : string) : bool :=
  String.eqb c "L" || String.eqb c "SS" || String.eqb c "NS"
  || String.eqb c "BS".

(** The [switch (attributeKeyCode)] of [getAttributeAtPath]: the next
    [attributeFound].  [nextPath] is [localPath.slice(i + 1)]. *)
Definition descend (attributeFound currentAttribute : value)
  (attributeKeyCode : string) (nextPath : list string) : result value :=
  if scalar_code attributeKeyCode then Ok currentAttribute
  else if String.eqb attributeKeyCode "M" then
    Js.get currentAttribute attributeKeyCode
  else if list_code attributeKeyCode then
    if (1 <? length nextPath)%nat then
      let indexValue := nth 0 nextPath "" in
      if Conv.isFinite_string indexValue then
        container <- Js.get currentAttribute attributeKeyCode ;;
        len <- Js.get container "length" ;;
        if Conv.string_lt indexValue len then Ok container
        else Ok attributeFound
      else Ok attributeFound
    else Js.get currentAttribute attributeKeyCode
  else Ok attributeFound.

(** The callback of [localPath.map((current, i) => ...)] run over the
    tokens that remain. *)
Fixpoint walk (tokens : list string) (attributeFound returnAttribute : value)
  : result value :=
  match tokens with
  | [] => Ok returnAttribute
  | current :: nextPath =>
      owned <- Js.hasOwnProperty attributeFound current ;;
      if (owned : bool) then
        currentAttribute <- Js.get attributeFound current ;;
        attributeKeys <- Js.keys currentAttribute ;;
        attributeFound' <-
          match attributeKeys with
          | [attributeKeyCode] =>
              descend attributeFound currentAttribute attributeKeyCode nextPath
          | _ => Ok attributeFound
          end ;;
        walk nextPath attributeFound' currentAttribute
      else
        match nextPath with
        | [] => walk nextPath attributeFound (VBool false)
        | _ => walk nextPath attributeFound returnAttribute
        end
  end.

(** The tokens [getAttributeAtPath] walks; [None] is [false]. *)
Definition localPath_of (path delimiter : value) : option (list string) :=
  match path with
  | VArr l => if all_strings l then Some (strings_of l) else None
  | VStr s =>
      match delimiter with
      | VStr d => Some (JsString.split s d)
      | _ => None
      end
  | _ => None
  end.

(** [getAttributeAtPath(item, path, delimiter)]; [item.hasOwnProperty]
    is called before the argument checks are looked at. *)
Definition getAttributeAtPath (item path delimiter : value) : result value :=
  let delimiter := default_delimiter delimiter in
  let localPath := localPath_of path delimiter in
  let objectCheck := isObject item in
  let pathCheck :=
    objectCheck && match localPath with Some _ => true | None => false end in
  let first :=
    match localPath with
    | Some (t :: _) => t
    | _ => "undefined"
    end in
  legitFirstCheck <- Js.hasOwnProperty item first ;;
  if negb pathCheck || negb objectCheck || negb legitFirstCheck
  then Ok (VBool false)
  else
    match localPath with
    | Some tokens => walk tokens item item
    | None => Ok (VBool false)
    end.

(** [hasAttributeAtPath(item, path, delimiter)] *)
Definition hasAttributeAtPath (item path delimiter : value) : result bool :=
  r <- getAttributeAtPath item path delimiter ;;
  Ok (match r with VBool false => false | _ => true end).

(* ================================================================== *)
(** ** Vocabulary of the statements *)

(** The canonical attribute [{NULL: true}]. *)
Definition NULL_attribute : value := VObj [("NULL", VBool true)].

(** A string made of white space only (the empty string included). *)
Fixpoint whitespace_only (s : string) : bool :=
  match s with
  | EmptyString => true
  | String c s' => JsString.is_white_space c && whitespace_only s'
  end.

(** The billing rule in the words of the specification, on integers: the
    byte total in hundredths of a kilobyte, rounded to the closest
    hundredth, then the hundredths rounded up to whole kilobytes. *)
Definition hundredths_of_kilobyte (bytes : nat) : Z :=
  ((Z.of_nat bytes * 100 + 512) / 1024)%Z.

Definition kilobytes_billed (bytes : nat) : Z :=
  ((hundredths_of_kilobyte bytes + 99) / 100)%Z.

(** [sizes] lists the raw size of every top-level field of [props]. *)
Definition field_sizes (props : list (string * value)) (sizes : list nat)
  : Prop :=
  Forall2 (fun kv n => getObjectSize (Some (fst kv)) (snd kv) = Ok n)
    props sizes.

(** Descending from [item], each token in order names an own property
    of the value reached by the tokens before it. *)
Fixpoint owns_path (item : value) (tokens : list string) : bool :=
  match tokens with
  | [] => true
  | t :: rest =>
      match Js.hasOwnProperty item t, Js.get item t with
      | Ok true, Ok child => owns_path child rest
      | _, _ => false
      end
  end.

(** [rest] descends through the steps of an index: each token is the key
    of a step of the list reached so far. *)
Fixpoint in_steps (steps : list value) (rest : list string) {struct rest}
  : bool :=
  match rest with
  | [] => true
  | t :: rest' =>
      existsb (fun step =>
                 match step with
                 | VObj sp =>
                     match Js.lookup t sp with
                     | Some (VArr steps') => in_steps steps' rest'
                     | _ => false
                     end
                 | _ => false
                 end) steps
  end.

(** A path is present in an index when its first token is a key of the
    index and the other tokens descend through the steps under it. *)
Definition path_in_index (idx : value) (path : list string) : bool :=
  match idx, path with
  | VObj ps, k :: rest =>
      match Js.lookup k ps with
      | Some (VArr steps) => in_steps steps rest
      | _ => false
      end
  | _, _ => false
  end.

Fixpoint distinct (keys : list string) : bool :=
  match keys with
  | [] => true
  | k :: rest => negb (existsb (String.eqb k) rest) && distinct rest
  end.

(** A list element [p] on which [getPropertyPaths] neither raises nor
    indexes a second time: [p[1]] can be read and is not an object. *)
Definition element_indexable (p : value) : bool :=
  match Js.get p "1" with
  | Ok p1 => negb (isObject p1)
  | Throw _ => false
  end.

(** The values [getPropertyPaths] indexes by their shape: at every depth
    the keys of a map are distinct and none is [hasOwnProperty], a list
    has fewer than [2^32] elements and its elements are
    [element_indexable]. *)
Fixpoint indexable (v : value) : bool :=
  match v with
  | VArr l =>
      (N.of_nat (length l) <? 2 ^ 32)%N
      && forallb (fun p => element_indexable p && indexable p) l
  | VObj ps =>
      distinct ("hasOwnProperty" :: map fst ps)
      && forallb (fun kv => indexable (snd kv)) ps
  | _ => true
  end.

(** Nesting depth of lists and maps. *)
Fixpoint depth (v : value) : nat :=
  match v with
  | VArr l => S (list_max (map depth l))
  | VObj ps => S (list_max (map (fun kv => depth (snd kv)) ps))
  | _ => 0
  end.

(** The steps under a value in its index: one single-key object per
    element or field, holding the steps under that element or field. *)
Fixpoint steps_of (v : value) : list value :=
  match v with
  | VArr l =>
      (fix from (l : list value) (i : nat) {struct l} : list value :=
         match l with
         | [] => []
         | p :: rest =>
             VObj [(JsString.of_nat i, VArr (steps_of p))] :: from rest (S i)
         end) l 0
  | VObj ps => map (fun kv => VObj [(fst kv, VArr (steps_of (snd kv)))]) ps
  | _ => []
  end.

(** The index of a record with the fields [props]. *)
Definition index_of (props : list (string * value)) : list (string * value) :=
  map (fun kv => (fst kv, VArr (steps_of (snd kv)))) props.

(** The attributes of the fields [props], the content of the [M]
    attribute [createAttribute] builds for a record. *)
Definition attributes_of (props : list (string * value))
  : list (string * value) :=
  map (fun kv => (fst kv, createAttribute (snd kv))) props.

(** Strings of decimal digits. *)
Definition is_digit (c : ascii) : bool :=
  ((48 <=? nat_of_ascii c) && (nat_of_ascii c <=? 57))%nat.

Definition digit_string (s : string) : bool :=
  forallb is_digit (list_ascii_of_string s).

(** The steps under the elements of a list, from index [i] on. *)
Fixpoint steps_from (l : list value) (i : nat) : list value :=
  match l with
  | [] => []
  | p :: rest =>
      VObj [(JsString.of_nat i, VArr (steps_of p))] :: steps_from rest (S i)
  end.

(** The record of the example in the documentation of
    [getPropertyPaths]. *)
Definition documented_version (universe : string) (hasVirginity : bool)
  : value :=
  VObj [("universe", VStr universe); ("hasVirginity", VBool hasVirginity)].

Definition documented_record : list (string * value) :=
  [("property1", VStr "value1");
   ("property2", VArr [VNum (Int 1); VNum (Int 2); VNum (Int 3)]);
   ("property3",
    VObj [("property3_1", VStr "v3.1");
          ("property3_2",
           VObj [("property3_2_1",
                  VObj [("pickle", VStr "rick");
                        ("morty",
                         VObj [("versions",
                                VArr [documented_version "31c-12" true;
                                      documented_version "31c-13" true;
                                      documented_version "31c-14" true;
                                      documented_version "31d-10" true;
                                      documented_version "31d-43" true;
                                      documented_version "38q-27" false;
                                      documented_version "47z-02" true])])])]);
          ("property3_3", VNum (Int 101))]);
   ("property4", VObj [("property4_1", VStr "baz")])].

Definition documented_path : list string :=
  ["property3"; "property3_2"; "property3_2_1"; "morty"; "versions"; "0";
   "universe"].

(* ================================================================== *)
(** ** Vocabulary of the further properties *)


(** A well-formed attribute: one tag, [S] with a trimmed string that is
    not empty, [N] with a string, [BOOL] with a boolean, [NULL] with
    [true], [L] with well-formed attributes, [M] with at least one field
    and well-formed attributes. *)
Fixpoint well_formed (a : value) : bool :=
  match a with
  | VObj [(code, x)] =>
      if String.eqb code "S" then
        match x with
        | VStr s => negb (String.eqb s "") && String.eqb (JsString.trim s) s
        | _ => false
        end
      else if String.eqb code "N" then
        match x with VStr _ => true | _ => false end
      else if String.eqb code "BOOL" then
        match x with VBool _ => true | _ => false end
      else if String.eqb code "NULL" then
        match x with VBool true => true | _ => false end
      else if String.eqb code "L" then
        match x with VArr l => forallb well_formed l | _ => false end
      else if String.eqb code "M" then
        match x with
        | VObj m =>
            (0 <? length m)%nat
            && forallb (fun kv => well_formed (snd kv)) m
        | _ => false
        end
      else false
  | _ => false
  end.

(** The characters left when the leading white space is dropped. *)
Fixpoint drop_white (l : list ascii) : list ascii :=
  match l with
  | [] => []
  | c :: rest => if JsString.is_white_space c then drop_white rest else l
  end.

(** A list of characters that does not start with white space. *)
Definition head_clean (l : list ascii) : Prop :=
  match l with
  | [] => True
  | c :: _ => JsString.is_white_space c = false
  end.

(** The values a path can be followed through without a call that
    raises: at every depth the keys of a map are distinct and none is
    [hasOwnProperty], and a list has fewer than [2^32] elements. *)
Fixpoint navigable (v : value) : bool :=
  match v with
  | VArr l => (N.of_nat (length l) <? 2 ^ 32)%N && forallb navigable l
  | VObj ps =>
      distinct ("hasOwnProperty" :: map fst ps)
      && forallb (fun kv => navigable (snd kv)) ps
  | _ => true
  end.

(** The field or the element of a plain value that a token names. *)
Definition child_at (v : value) (t : string) : option value :=
  match v with
  | VObj ps => Js.lookup t ps
  | VArr l =>
      match Js.index_of_key t with
      | Some i => nth_error l i
      | None => None
      end
  | _ => None
  end.

(** The value reached from [v] by following the tokens in order. *)
Fixpoint value_at (v : value) (rest : list string) : option value :=
  match rest with
  | [] => Some v
  | t :: rest' =>
      match child_at v t with
      | Some c => value_at c rest'
      | None => None
      end
  end.

(** The value a path reaches in the record with the fields [props]. *)
Definition record_at (props : list (string * value)) (path : list string)
  : option value :=
  match path with
  | [] => None
  | k :: rest =>
      match Js.lookup k props with
      | Some v => value_at v rest
      | None => None
      end
  end.

(** A token without a dot. *)
Definition dot_free (t : string) : bool :=
  forallb (fun c => negb (Ascii.eqb c ".")) (list_ascii_of_string t).

(** A value with nothing under it in the index: a scalar, an empty list
    or an empty map. *)
Definition is_leaf (c : value) : bool :=
  match c with
  | VArr (_ :: _) | VObj (_ :: _) => false
  | _ => true
  end.

(** The loop of [hasPropertyAtPath] over the tokens that remain, with
    the result found so far. *)
Fixpoint each_token (item : value) (rest : list value) (propertyFound : bool)
  : result bool :=
  match rest with
  | [] => Ok propertyFound
  | p :: slice =>
      owned <- Js.hasOwnProperty item (Conv.toStr p) ;;
      if (owned : bool) then
        child <- Js.get item (Conv.toStr p) ;;
        found <- hasPropertyAtPath_array child slice ;;
        each_token item slice found
      else each_token item slice propertyFound
  end.

(** A path on which no token but the first names a property of the
    value it is tested against, at every step of the descent, and on
    which no test raises. *)
Fixpoint clash_free (item : value) (path : list string) : bool :=
  match path with
  | [] => true
  | t :: rest =>
      match Js.hasOwnProperty item t with
      | Throw _ => false
      | Ok owned =>
          forallb (fun u => match Js.hasOwnProperty item u with
                            | Ok false => true
                            | _ => false
                            end) rest
          && (if owned then
                match rest, Js.get item t with
                | [], _ => true
                | _ :: _, Ok child => clash_free child rest
                | _ :: _, Throw _ => false
                end
              else true)
      end
  end.

(* ================================================================== *)
(** ** Responses and batch writes *)

(** [createResponse(code, body)], with [JSON.stringify] as the function
    [stringify] of the platform. *)
Definition createResponse (stringify : value -> value) (code : Z)
  (body : value) : value :=
  VObj [("statusCode", VNum (Int code));
        ("body", match body with
                 | VStr _ => body
                 | _ => stringify body
                 end)].

(** The callback of [requestItems.slice(...).map((p) => ...)] on an
    object [p]: the [version] defaults to 1, the [id] is the [name], and
    the object is wrapped in a put request.  The object is changed in
    place; [prepare] gives its new value. *)
Definition prepare (p : list (string * value)) : result (list (string * value)) :=
  owned <- Js.hasOwnProperty (VObj p) "version" ;;
  let p1 := if (owned : bool) then p
            else Js.defineProperty p "version" (VNum (Int 1)) in
  name <- Js.get (VObj p1) "name" ;;
  Ok (Js.defineProperty p1 "id" name).

Definition put_request (p : list (string * value)) : result value :=
  item <- prepare p ;;
  Ok (VObj [("PutRequest", VObj [("Item", VObj item)])]).

(** [a.map(f)] for a callback that can raise. *)
Fixpoint map_result {A B} (f : A -> result B) (l : list A) : result (list B) :=
  match l with
  | [] => Ok []
  | x :: rest =>
      y <- f x ;;
      ys <- map_result f rest ;;
      Ok (y :: ys)
  end.

(** [a.slice(start, end)] for indices within the bounds of numbers. *)
Definition slice {A} (l : list A) (start finish : nat) : list A :=
  firstn (finish - start) (skipn start l).

(** The parameters of one [batchWrite] call. *)
Definition batch_params (table : string) (requests : list value) : value :=
  VObj [("ReturnConsumedCapacity", VStr "INDEXES");
        ("ReturnItemCollectionMetrics", VStr "SIZE");
        ("RequestItems", VObj [(table, VArr requests)])].

(** [insertMultiObject(client, table, requestItems, startIndex, step,
    callback)] on a list of objects.  [batchWrite] is the client: it
    answers the parameters of a call with the error and the response it
    passes to the callback of that call.  The result lists the
    parameters of the calls made, in order, and ends with the response
    passed to [callback] or with the exception raised.  The function
    calls itself from the callback of the client once per page, so the
    model recurses on a bound [fuel] of pages: [None] means the bound was
    reached. *)
Fixpoint insertMultiObject (fuel : nat) (stringify : value -> value)
  (batchWrite : value -> value * value) (table : string)
  (requestItems : list (list (string * value))) (startIndex step : nat)
  : option (list value * result value) :=
  match fuel with
  | O => None
  | S f =>
      let endIndex :=
        if (length requestItems <=? startIndex + step)%nat
        then length requestItems else startIndex + step in
      match map_result put_request (slice requestItems startIndex endIndex) with
      | Throw e => Some ([], Throw e)
      | Ok requests =>
          let params := batch_params table requests in
          let (err, response) := batchWrite params in
          if Conv.truthy err then
            Some ([params], Ok (createResponse stringify 501 err))
          else if (endIndex =? length requestItems)%nat then
            Some ([params], Ok (createResponse stringify 200 response))
          else
            match insertMultiObject f stringify batchWrite table
                    requestItems endIndex step with
            | None => None
            | Some (calls, outcome) => Some (params :: calls, outcome)
            end
      end
  end.

(** The requests of one call, read back from its parameters. *)
Definition requests_of (params : value) : list value :=
  match params with
  | VObj [_; _; (_, VObj [(_, VArr requests)])] => requests
  | _ => []
  end.

(** Strings whose characters are all below U+0080. *)
Definition ascii_only (s : string) : bool :=
  forallb (fun c => (nat_of_ascii c <? 128)%nat) (list_ascii_of_string s).

(** Sample arguments for [insertMultiObject]: three objects, a client
    that accepts every page, and a client that rejects the pages of one
    request. *)
Definition sample_items : list (list (string * value)) :=
  [[("name", VStr "a")];
   [("name", VStr "b"); ("version", VNum (Int 7))];
   [("name", VStr "c")]].

Definition sample_stringify (_ : value) : value := VStr "{}".

Definition accepting_client (_ : value) : value * value :=
  (VNull, VObj [("UnprocessedItems", VObj [])]).

Definition rejecting_client (params : value) : value * value :=
  if (length (requests_of params) =? 1)%nat
  then (VStr "rejected", VUndefined)
  else (VNull, VObj [("UnprocessedItems", VObj [])]).

(* ================================================================== *)
(** * Properties *)

Example toString_12345 :
  JsNumber.toString (Dec false 12345 1) = "1.2345".
Proof. reflexivity. Qed.

Example toString_small :
  JsNumber.toString (Dec false 15 (-6)) = "1.5e-7".
Proof. reflexivity. Qed.

Example toString_100 : JsNumber.toString (JsNumber.of_nat 100) = "100".
Proof. reflexivity. Qed.

Example toString_big :
  JsNumber.toString (Int (12 * 10 ^ 21)) = "1.2e+22".
Proof. vm_compute. reflexivity. Qed.

Example split_dots : JsString.split "a.b..c" "." = ["a"; "b"; ""; "c"].
Proof. reflexivity. Qed.

Example split_empty : JsString.split "" "." = [""].
Proof. reflexivity. Qed.

Example trim_spaces : JsString.trim "  a b  " = "a b".
Proof. reflexivity. Qed.

(* ------------------------------------------------------------------ *)
(** ** Attribute encoding *)

Lemma trim_start_whitespace_only s :
  whitespace_only s = true -> JsString.trim_start s = "".
Proof.
  induction s as [|c s IH]; simpl; [reflexivity|].
  intros H. apply andb_true_iff in H as [Hc Hs].
  rewrite Hc. now apply IH.
Qed.

Lemma trim_whitespace_only s :
  whitespace_only s = true -> JsString.trim s = "".
Proof.
  intros H. unfold JsString.trim.
  rewrite (trim_start_whitespace_only s H). reflexivity.
Qed.

(** The closing call [createAttribute(null)] yields [{NULL: true}]. *)
Lemma createAttribute_null : createAttribute VNull = NULL_attribute.
Proof. reflexivity. Qed.

(** C1, the claim as stated fails: the empty list is encoded as the [L]
    attribute of an empty list, not as [{NULL: true}]. *)
Lemma createAttribute_empty_list_not_NULL :
  createAttribute (VArr []) <> NULL_attribute.
Proof. vm_compute. discriminate. Qed.

(** C1, amended: every empty or white-space-only string and the empty map
    are encoded as [{NULL: true}]; the empty list is encoded as
    [{L: []}]; and [[null]] is encoded as [{L: [{NULL: true}]}]. *)
Theorem createAttribute_emptiness (s : string) :
  whitespace_only s = true ->
  createAttribute (VStr s) = NULL_attribute
  /\ createAttribute (VObj []) = NULL_attribute
  /\ createAttribute (VArr []) = VObj [("L", VArr [])]
  /\ createAttribute (VArr [VNull]) = VObj [("L", VArr [NULL_attribute])].
Proof.
  intros H. repeat split; try reflexivity.
  unfold createAttribute. simpl.
  rewrite (trim_whitespace_only s H). reflexivity.
Qed.

Lemma createAttribute_emptiness_witness :
  whitespace_only "   " = true
  /\ createAttribute (VStr "   ") = NULL_attribute
  /\ createAttribute (VStr "") = NULL_attribute.
Proof.
  split; [reflexivity|]. split.
  - apply (createAttribute_emptiness "   "). reflexivity.
  - apply (createAttribute_emptiness ""). reflexivity.
Defined.

(* ------------------------------------------------------------------ *)
(** ** Size accounting *)

(** Induction on values through their lists and maps. *)
Lemma value_nested_ind (P : value -> Prop) :
  P VUndefined -> P VNull -> (forall b, P (VBool b)) ->
  (forall x, P (VNum x)) -> (forall s, P (VStr s)) ->
  (forall l, Forall P l -> P (VArr l)) ->
  (forall ps, Forall (fun kv => P (snd kv)) ps -> P (VObj ps)) ->
  forall v, P v.
Proof.
  intros Hu Hn Hb Hx Hs Hl Hp. fix IH 1. intros v.
  destruct v as [| |b|x|s|l|ps].
  - exact Hu.
  - exact Hn.
  - apply Hb.
  - apply Hx.
  - apply Hs.
  - apply Hl. induction l as [|e rest IHl]; constructor; [apply IH | exact IHl].
  - apply Hp. induction ps as [|[k e] rest IHl]; constructor;
      [apply IH | exact IHl].
Qed.

(** The call with one argument is the call on [undefined] under any
    name. *)
Lemma getObjectSize_unary_undefined name e :
  getObjectSize_unary e = getObjectSize name VUndefined.
Proof. reflexivity. Qed.

(** The loop of [arraySizeCount] adds 3 for every element. *)
Lemma array_loop_result l : forall size,
  array_loop l size = Ok (size + 3 * length l).
Proof.
  induction l as [|e rest IH]; intros size; simpl.
  - f_equal. lia.
  - rewrite IH. f_equal. lia.
Qed.

Lemma getObjectSize_array name a :
  getObjectSize name (VArr a) = arraySizeCount name a.
Proof.
  unfold arraySizeCount. simpl. destruct (name_length name); simpl; [|reflexivity].
  generalize (a0 + 3). induction a as [|e rest IH]; intros size; simpl.
  - reflexivity.
  - apply IH.
Qed.

Lemma getObjectSize_object name props :
  getObjectSize name (VObj props) = objectSizeCount name props.
Proof.
  unfold objectSizeCount. simpl. destruct (name_length name); simpl; [|reflexivity].
  generalize (a + 3). induction props as [|[k v] rest IH]; intros size; simpl.
  - reflexivity.
  - destruct (getObjectSize (Some k) v); simpl; [apply IH | reflexivity].
Qed.

(** The size of a list under a name. *)
Lemma arraySizeCount_named name l :
  arraySizeCount (Some name) l = Ok (String.length name + 3 + 3 * length l).
Proof. unfold arraySizeCount. simpl. apply array_loop_result. Qed.

(** C2: [arraySizeCount] calls [getObjectSize(e)] with the element in
    the place of the name and no value to size, so an element adds 3
    bytes and nothing for its own size: the size of a list is
    [name.length + 3 + 3 * a.length].  [arraySizeCount("a", ["xyz"])] is
    [1 + 3 + 3 = 7], where the claim adds the 3 bytes that ["xyz"] has
    without a name and gives 10. *)
Theorem arraySizeCount_ignores_elements name a :
  arraySizeCount (Some name) a = Ok (String.length name + 3 + 3 * length a)
  /\ arraySizeCount (Some "a") [VStr "xyz"] = Ok 7
  /\ getObjectSize (Some "a") (VArr [VStr "xyz"]) = Ok 7
  /\ getObjectSize (Some "") (VStr "xyz") = Ok 3.
Proof.
  split; [apply arraySizeCount_named|]. repeat split; reflexivity.
Qed.

Lemma object_loop_returns ps :
  Forall (fun kv => forall name,
            exists n, getObjectSize (Some name) (snd kv) = Ok n) ps ->
  forall size, exists n, object_loop ps size = Ok n.
Proof.
  induction 1 as [|[k v] rest Hv Hrest IH]; intros size; simpl.
  - now exists size.
  - destruct (Hv k) as [n Hn]. simpl in Hn. rewrite Hn. simpl. apply IH.
Qed.

(** Under a name, every value has a size. *)
Lemma getObjectSize_named name v :
  exists n, getObjectSize (Some name) v = Ok n.
Proof.
  revert name. induction v as [| |b|x|s|l IH|ps IH] using value_nested_ind;
    intros name; try (eexists; reflexivity).
  - simpl. destruct (JsNumber.isFinite x); [|eexists; reflexivity].
    unfold numberSizeCount. simpl.
    destruct (JsString.includes (JsNumber.toString x) ".");
      eexists; reflexivity.
  - rewrite getObjectSize_array, arraySizeCount_named. eexists; reflexivity.
  - rewrite getObjectSize_object. unfold objectSizeCount.
    cbn [name_length bind]. apply object_loop_returns. exact IH.
Qed.

(** The fields of a record all have a size. *)
Lemma field_sizes_exist props : exists sizes, field_sizes props sizes.
Proof.
  induction props as [|[k v] rest [sizes IH]].
  - exists []. constructor.
  - destruct (getObjectSize_named k v) as [n Hn].
    exists (n :: sizes). constructor; assumption.
Qed.

(** The loop over the fractional digits runs for [i = 0, 2, ...] up to
    and including [fpartLength]. *)
Lemma fpart_loop_count fuel : forall i len size,
  i <= len -> len - i < 2 * fuel ->
  fpart_loop fuel i len size = size + 2 * ((len - i) / 2 + 1).
Proof.
  induction fuel as [|f IH]; intros i len size Hi Hf; [lia|].
  cbn [fpart_loop]. destruct (Nat.leb_spec i len) as [_|]; [|lia].
  destruct (Nat.le_gt_cases (i + 2) len) as [Hle|Hgt].
  - rewrite IH by lia.
    assert (E : (len - i) / 2 = (len - (i + 2)) / 2 + 1).
    { replace (len - i) with ((len - (i + 2)) + 1 * 2) by lia.
      apply Nat.div_add. lia. }
    rewrite E. lia.
  - rewrite (Nat.div_small (len - i) 2) by lia.
    destruct f as [|f']; cbn [fpart_loop]; [lia|].
    destruct (Nat.leb_spec (i + 2) len); lia.
Qed.

Lemma fpart_loop_closed len size :
  fpart_loop (S len) 0 len size = size + 2 * (len / 2 + 1).
Proof.
  rewrite fpart_loop_count by lia. now rewrite Nat.sub_0_r.
Qed.

(** C3: on [1.2345] the loop [for (i; i <= fpartLength; i += 2)] runs
    three times for the four fractional digits, so the size is
    [1 + 1 + 6 = 8] where the claim gives [1 + 1 + 4 = 6]. *)
Theorem numberSizeCount_1_2345 :
  JsNumber.toString (Dec false 12345 1) = "1.2345"
  /\ numberSizeCount (Some "n") (Dec false 12345 1) = Ok 8.
Proof. split; reflexivity. Qed.


Lemma Qceiling_hundredths (z : Z) :
  Qceiling (z # 100) = ((z + 99) / 100)%Z.
Proof.
  unfold Qceiling, Qfloor, Qopp. simpl Qnum. simpl Qden.
  pose proof (Z.div_mod (- z) 100 ltac:(lia)) as H1.
  pose proof (Z.mod_pos_bound (- z) 100 ltac:(lia)) as H2.
  pose proof (Z.div_mod (z + 99) 100 ltac:(lia)) as H3.
  pose proof (Z.mod_pos_bound (z + 99) 100 ltac:(lia)) as H4.
  lia.
Qed.

Lemma toKilobyte_hundredths (n : nat) :
  toKilobyte n = (hundredths_of_kilobyte n # 100)%Q.
Proof.
  unfold toKilobyte, toFixed2, hundredths_of_kilobyte. f_equal.
  unfold Qfloor, Qplus, Qmult, Qdiv, Qinv, inject_Z. simpl Qnum. simpl Qden.
  change (Z.pos (1024 * 2)) with (1024 * 2)%Z.
  replace (Z.of_nat n * 1 * 100 * 2 + 1 * 1024)%Z
    with ((Z.of_nat n * 100 + 512) * 2)%Z by lia.
  apply Z.div_mul_cancel_r; lia.
Qed.

(** The ceiling of the two-decimal kilobyte figure, on integers. *)
Lemma Math_ceil_toKilobyte (n : nat) :
  Math_ceil (toKilobyte n) = kilobytes_billed n.
Proof.
  unfold Math_ceil. rewrite toKilobyte_hundredths.
  apply Qceiling_hundredths.
Qed.

Lemma kilobytes_billed_nonneg (n : nat) : (0 <= kilobytes_billed n)%Z.
Proof.
  unfold kilobytes_billed, hundredths_of_kilobyte.
  apply Z.div_pos; [|lia].
  assert (0 <= (Z.of_nat n * 100 + 512) / 1024)%Z by (apply Z.div_pos; lia).
  lia.
Qed.

(** The loop of [itemSizeCount] adds up the sizes of the fields. *)
Lemma item_loop_sum props : forall sizes size,
  field_sizes props sizes ->
  item_loop props size = Ok (size + list_sum sizes).
Proof.
  induction props as [|[k v] rest IH]; intros sizes size H; inversion H; subst.
  - simpl. f_equal. lia.
  - simpl in *. rewrite H2. simpl. rewrite (IH _ _ H4). f_equal. lia.
Qed.

(** [itemSizeCount] on a record with at least one field. *)
Lemma itemSizeCount_fields props sizes :
  props <> [] ->
  field_sizes props sizes ->
  itemSizeCount (VObj props)
  = Ok (VNum (Int (kilobytes_billed (list_sum sizes)))).
Proof.
  intros Hne H. unfold itemSizeCount. simpl.
  destruct props as [|p rest]; [congruence|].
  change (0 <? length (p :: rest))%nat with true. cbv iota.
  rewrite (item_loop_sum _ _ 0 H). simpl bind.
  rewrite Math_ceil_toKilobyte. unfold JsNumber.of_nat.
  rewrite Z2Nat.id by apply kilobytes_billed_nonneg. reflexivity.
Qed.

(** C4: for every record with at least one field, every field has a
    size, and [itemSizeCount] is the byte total of the fields converted
    to kilobytes with two decimals and rounded up to a whole number; a
    total of 1536 bytes gives 2. *)
Theorem itemSizeCount_rounds_up props :
  props <> [] ->
  exists sizes,
    field_sizes props sizes
    /\ itemSizeCount (VObj props)
       = Ok (VNum (Int (kilobytes_billed (list_sum sizes))))
    /\ (list_sum sizes = 1536 ->
        itemSizeCount (VObj props) = Ok (VNum (Int 2))).
Proof.
  intros Hne. destruct (field_sizes_exist props) as [sizes H].
  exists sizes. split; [exact H|]. split.
  - now apply itemSizeCount_fields.
  - intros E. rewrite (itemSizeCount_fields _ _ Hne H), E. reflexivity.
Qed.

Lemma itemSizeCount_rounds_up_witness :
  itemSizeCount (VObj [("a", VStr (JsString.repeat "x" 1535))])
  = Ok (VNum (Int 2)).
Proof.
  destruct (itemSizeCount_rounds_up
              [("a", VStr (JsString.repeat "x" 1535))])
    as (sizes & Hs & _ & H); [discriminate|].
  apply H. inversion Hs as [|kv n rest sizes' Hn Hrest]; subst.
  inversion Hrest; subst.
  vm_compute in Hn. injection Hn as <-. reflexivity.
Defined.

(** C9, the claim as stated fails: a list is not a mapping, yet
    [item instanceof Object] admits it and its indices are sized as
    fields; here the result is the number 0. *)
Lemma itemSizeCount_list_is_sized :
  itemSizeCount (VArr [VStr "x"]) = Ok (VNum (Int 0))
  /\ itemSizeCount (VArr [VStr "x"]) <> Ok VUndefined.
Proof. split; [vm_compute; reflexivity | vm_compute; discriminate]. Qed.

(** C9, amended: for every input that is not an object (a string, a
    number, a boolean, [null], [undefined]) and for every object or list
    that has no keys, [itemSizeCount] returns [undefined]. *)
Theorem itemSizeCount_undefined item :
  isObject item = false \/ Js.keys item = Ok [] ->
  itemSizeCount item = Ok VUndefined.
Proof.
  unfold itemSizeCount, isObject, Js.keys.
  intros [H|H]; [now rewrite H|].
  destruct (Js.isObject item); [|reflexivity].
  destruct (Js.entries item) as [es|e]; simpl in *; [|discriminate].
  destruct es; [reflexivity | discriminate].
Qed.

Lemma itemSizeCount_undefined_witness :
  itemSizeCount (VObj []) = Ok VUndefined
  /\ itemSizeCount (VArr []) = Ok VUndefined
  /\ itemSizeCount (VStr "abc") = Ok VUndefined
  /\ itemSizeCount VNull = Ok VUndefined.
Proof.
  split; [|split; [|split]].
  - apply (itemSizeCount_undefined (VObj [])). right. reflexivity.
  - apply (itemSizeCount_undefined (VArr [])). right. reflexivity.
  - apply (itemSizeCount_undefined (VStr "abc")). left. reflexivity.
  - apply (itemSizeCount_undefined VNull). left. reflexivity.
Defined.

(** C10: a record with at least one field whose byte total is at most 5
    has size 0, a number and not [undefined]; [{a: ""}], of 1 byte, is
    such a record. *)
Theorem itemSizeCount_zero props sizes :
  props <> [] ->
  field_sizes props sizes ->
  list_sum sizes <= 5 ->
  itemSizeCount (VObj props) = Ok (VNum (Int 0))
  /\ itemSizeCount (VObj props) <> Ok VUndefined
  /\ itemSizeCount (VObj [("a", VStr "")]) = Ok (VNum (Int 0)).
Proof.
  intros Hne H Hle.
  assert (E : itemSizeCount (VObj props) = Ok (VNum (Int 0))).
  { rewrite (itemSizeCount_fields _ _ Hne H). do 3 f_equal.
    unfold kilobytes_billed, hundredths_of_kilobyte.
    rewrite (Z.div_small (Z.of_nat (list_sum sizes) * 100 + 512) 1024) by lia.
    reflexivity. }
  split; [exact E|]. split; [rewrite E; discriminate|].
  vm_compute. reflexivity.
Qed.

Lemma itemSizeCount_zero_witness :
  getObjectSize (Some "a") (VStr "") = Ok 1
  /\ itemSizeCount (VObj [("a", VStr "")]) = Ok (VNum (Int 0)).
Proof.
  split; [reflexivity|].
  refine (proj1 (itemSizeCount_zero [("a", VStr "")] [1] _ _ _)).
  - discriminate.
  - repeat constructor.
  - simpl. lia.
Defined.

(* ------------------------------------------------------------------ *)
(** ** Path resolution: arguments of the wrong shape *)

(** [toArrayPath] splits its path argument before it looks at the
    argument checks, so every path that is not a string raises. *)
Lemma toArrayPath_not_a_string paths propertyString delimiter :
  (forall s, propertyString <> VStr s) ->
  toArrayPath paths propertyString delimiter = Throw TypeError.
Proof.
  intros H. unfold toArrayPath, split_value.
  destruct propertyString; try reflexivity. now destruct (H s).
Qed.

(** [getAttributeAtPath] calls [item.hasOwnProperty] before it looks at
    the argument checks, so [null] and [undefined] items raise. *)
Lemma getAttributeAtPath_null_item path delimiter :
  getAttributeAtPath VNull path delimiter = Throw TypeError
  /\ getAttributeAtPath VUndefined path delimiter = Throw TypeError.
Proof. split; reflexivity. Qed.

(** In [toStringPath] a token that no step of the index owns leaves
    [nextPathObject] undefined, and the conditional then calls
    [nextPathObject.hasOwnProperty]. *)
Lemma toStringPath_step_unresolved steps token :
  find_step steps token = Ok None ->
  toStringPath_step (VArr steps) token = Throw TypeError.
Proof.
  intros H. unfold toStringPath_step, find. rewrite H. reflexivity.
Qed.

(** The arguments of the wrong shape that are answered with a sentinel:
    a path that is not an array for [toStringPath], an index that is not
    an object for [toStringPath] and [toArrayPath], and a path that is
    neither an array of strings nor a string for [getAttributeAtPath] on
    an object. *)
Lemma toStringPath_not_an_array paths propertyNames delimiter :
  isArray propertyNames = false ->
  toStringPath paths propertyNames delimiter = Ok VUndefined.
Proof. destruct propertyNames; simpl; try reflexivity; discriminate. Qed.

Lemma toStringPath_not_an_index paths propertyNames delimiter :
  isObject paths = false ->
  toStringPath paths propertyNames delimiter = Ok VUndefined.
Proof.
  intros H. unfold toStringPath. destruct propertyNames; try reflexivity.
  now rewrite H.
Qed.

Lemma toArrayPath_not_an_index paths s delimiter :
  isObject paths = false ->
  toArrayPath paths (VStr s) delimiter = Ok VUndefined.
Proof. intros H. unfold toArrayPath. simpl. now rewrite H. Qed.

(** C6: three calls with arguments of the shapes the claim lists raise a
    [TypeError] where the claim gives a sentinel: [toStringPath] on a
    second token that does not resolve, [toArrayPath] on a path that is a
    number, [getAttributeAtPath] on the item [null]. *)
Theorem path_functions_raise :
  toStringPath (VObj [("a", VArr [])]) (VArr [VStr "a"; VStr "b"]) VUndefined
  = Throw TypeError
  /\ toArrayPath (VObj [("a", VArr [])]) (VNum (Int 123)) VUndefined
     = Throw TypeError
  /\ getAttributeAtPath VNull (VStr "a") VUndefined = Throw TypeError.
Proof. repeat split. Qed.

(* ------------------------------------------------------------------ *)
(** ** Path resolution: a token in the middle that does not resolve *)

(** C7: in [{a: {M: {b: {S: "x"}}}}] the path [a.zzz.b] has no attribute,
    since [zzz] is not a key of the map under [a]; the walk skips the
    token and resolves [b] in the same map, so the call returns
    [{S: "x"}] where the claim gives [false]. *)
Theorem getAttributeAtPath_skips_unresolved_token :
  let item :=
    VObj [("a", VObj [("M", VObj [("b", VObj [("S", VStr "x")])])])] in
  getAttributeAtPath item (VArr [VStr "a"; VStr "zzz"; VStr "b"]) VUndefined
  = Ok (VObj [("S", VStr "x")])
  /\ hasAttributeAtPath item (VStr "a.zzz.b") VUndefined = Ok true.
Proof. split; reflexivity. Qed.

(** A token that is not owned changes neither the attribute reached nor
    the attribute returned, unless it is the last one. *)
Lemma walk_skips current next rest attributeFound returnAttribute :
  Js.hasOwnProperty attributeFound current = Ok false ->
  walk (current :: next :: rest) attributeFound returnAttribute
  = walk (next :: rest) attributeFound returnAttribute.
Proof. intros H. cbn [walk]. rewrite H. reflexivity. Qed.

(* ------------------------------------------------------------------ *)
(** ** Path resolution against a plain value *)

(** C8: every token of a path is tested against the top-level item and
    the last successful test decides.  In [{a: {a: 1}}] the descent
    [a], [a] names an own property at each step, but the second token is
    also owned by the item itself and is followed with no tokens left:
    the call returns [false].  In [{a: 1, b: {c: 1}}] the descent
    [a], [b], [c] stops at [a], yet the call returns [true]. *)
Theorem hasPropertyAtPath_tests_top_level :
  let nested := VObj [("a", VObj [("a", VNum (Int 1))])] in
  let flat := VObj [("a", VNum (Int 1)); ("b", VObj [("c", VNum (Int 1))])] in
  owns_path nested ["a"; "a"] = true
  /\ hasPropertyAtPath nested (VArr [VStr "a"; VStr "a"]) VUndefined
     = Ok (VBool false)
  /\ owns_path flat ["a"; "b"; "c"] = false
  /\ hasPropertyAtPath flat (VArr [VStr "a"; VStr "b"; VStr "c"]) VUndefined
     = Ok (VBool true).
Proof. repeat split. Qed.

(* ------------------------------------------------------------------ *)
(** ** Decimal index tokens *)

Lemma is_digit_cases c :
  is_digit c = true ->
  In c ["0"; "1"; "2"; "3"; "4"; "5"; "6"; "7"; "8"; "9"]%char.
Proof.
  destruct c as [[|] [|] [|] [|] [|] [|] [|] [|]];
    vm_compute; intros H; try discriminate H; tauto.
Qed.

Ltac digit_cases H :=
  apply is_digit_cases in H; simpl in H;
  repeat (destruct H as [H|H]; [subst|]); [..|contradiction].

Lemma digit_string_of_uint d :
  digit_string (NilEmpty.string_of_uint d) = true.
Proof.
  unfold digit_string. induction d; simpl; auto.
Qed.

Lemma digit_string_of_nat i : digit_string (JsString.of_nat i) = true.
Proof.
  unfold JsString.of_nat, NilZero.string_of_uint.
  destruct (N.to_uint (N.of_nat i)); try apply digit_string_of_uint.
  reflexivity.
Qed.

Lemma of_nat_not_empty i : JsString.of_nat i <> "".
Proof.
  unfold JsString.of_nat, NilZero.string_of_uint.
  destruct (N.to_uint (N.of_nat i)); simpl; discriminate.
Qed.

Lemma uint_of_string_of_uint d :
  exists d', NilZero.uint_of_string (NilZero.string_of_uint d) = Some d'
             /\ N.of_uint d' = N.of_uint d.
Proof.
  destruct d; try (eexists; split; [apply NilZero.usu; discriminate|];
                   reflexivity).
  exists Decimal.zero. split; reflexivity.
Qed.

Lemma decimal_digits_of_nat i :
  Conv.decimal_digits (JsString.of_nat i) = Some (N.of_nat i).
Proof.
  unfold Conv.decimal_digits, JsString.of_nat.
  destruct (uint_of_string_of_uint (N.to_uint (N.of_nat i))) as [d' [H1 H2]].
  rewrite H1. simpl. now rewrite H2, DecimalN.Unsigned.of_to.
Qed.

(** The decimal form of [i] is the key of the element at index [i]. *)
Lemma index_of_key_of_nat i : Js.index_of_key (JsString.of_nat i) = Some i.
Proof.
  unfold Js.index_of_key.
  pose proof (decimal_digits_of_nat i) as H. unfold Conv.decimal_digits in H.
  destruct (NilZero.uint_of_string (JsString.of_nat i)) as [u|];
    [|discriminate].
  simpl in H. injection H as H. rewrite H, Nat2N.id, String.eqb_refl.
  reflexivity.
Qed.

Lemma is_digit_not_white_space c :
  is_digit c = true -> JsString.is_white_space c = false.
Proof. intros H. digit_cases H; reflexivity. Qed.

Lemma trim_start_digits l :
  forallb is_digit l = true ->
  JsString.trim_start (string_of_list_ascii l) = string_of_list_ascii l.
Proof.
  destruct l as [|c l]; simpl; [reflexivity|].
  intros H. apply andb_true_iff in H as [Hc _].
  now rewrite (is_digit_not_white_space c Hc).
Qed.

Lemma forallb_rev {A} (f : A -> bool) l :
  forallb f l = true -> forallb f (rev l) = true.
Proof.
  rewrite !forallb_forall. intros H x Hx. apply H. now apply in_rev.
Qed.

(** Trimming leaves a string of digits as it is. *)
Lemma trim_digit_string s : digit_string s = true -> JsString.trim s = s.
Proof.
  unfold digit_string, JsString.trim, JsString.reverse. intros H.
  rewrite <- (string_of_list_ascii_of_string s) at 1.
  rewrite (trim_start_digits _ H), list_ascii_of_string_of_list_ascii.
  rewrite (trim_start_digits _ (forallb_rev _ _ H)).
  rewrite list_ascii_of_string_of_list_ascii, rev_involutive.
  apply string_of_list_ascii_of_string.
Qed.

Lemma cut_digit_string (p : ascii -> bool) s :
  (forall c, is_digit c = true -> p c = false) ->
  digit_string s = true -> Conv.cut p s = (s, None).
Proof.
  intros Hp. unfold digit_string.
  induction s as [|c s IH]; simpl; [reflexivity|].
  intros H. apply andb_true_iff in H as [Hc Hs].
  now rewrite (Hp c Hc), (IH Hs).
Qed.

Lemma append_empty_r s : (s ++ "")%string = s.
Proof. induction s; simpl; congruence. Qed.

(** A string of digits that stands for [m] is the decimal literal [m]. *)
Lemma decimal_digit_string s m :
  digit_string s = true ->
  Conv.decimal_digits s = Some m ->
  Conv.decimal s = Some (inject_Z (Z.of_N m) * 1)%Q.
Proof.
  intros Hd Hm. unfold Conv.decimal.
  rewrite (cut_digit_string _ s) by
    (auto; intros c H; digit_cases H; reflexivity).
  rewrite (cut_digit_string _ s) by
    (auto; intros c H; digit_cases H; reflexivity).
  rewrite append_empty_r, Hm. reflexivity.
Qed.

Lemma radix_prefix_digit_string s :
  digit_string s = true -> Conv.radix_prefix s = None.
Proof.
  unfold digit_string. destruct s as [|c1 [|c2 r]]; simpl; try reflexivity.
  intros H. apply andb_true_iff in H as [_ H].
  apply andb_true_iff in H as [H2 _].
  destruct (Conv.is_char c1 "0"); [|reflexivity].
  digit_cases H2; reflexivity.
Qed.

Lemma stringToNumber_digit_string s m :
  digit_string s = true ->
  Conv.decimal_digits s = Some m ->
  Conv.stringToNumber s = Conv.Exact (inject_Z (Z.of_N m) * 1)%Q.
Proof.
  intros Hd Hm. unfold Conv.stringToNumber.
  rewrite (trim_digit_string s Hd).
  destruct s as [|c r] eqn:E; [discriminate Hm|]. rewrite <- E in *.
  rewrite (radix_prefix_digit_string s Hd).
  assert (Hc : is_digit c = true).
  { unfold digit_string in Hd. rewrite E in Hd. simpl in Hd.
    now apply andb_true_iff in Hd as [Hc _]. }
  assert (Hsign : Conv.is_char c "+" = false /\ Conv.is_char c "-" = false
                  /\ Ascii.eqb c "I" = false).
  { digit_cases Hc; repeat split. }
  destruct Hsign as [-> [-> HI]].
  unfold Conv.unsigned_literal.
  replace (String.eqb s "Infinity") with false
    by (rewrite E; simpl; now rewrite HI).
  now rewrite (decimal_digit_string s m Hd Hm).
Qed.

Lemma stringToNumber_of_nat i :
  Conv.stringToNumber (JsString.of_nat i)
  = Conv.Exact (inject_Z (Z.of_N (N.of_nat i)) * 1)%Q.
Proof.
  apply stringToNumber_digit_string.
  - apply digit_string_of_nat.
  - apply decimal_digits_of_nat.
Qed.

(** An index below [2^32] is a finite number. *)
Lemma isFinite_string_of_nat i :
  (N.of_nat i < 2 ^ 32)%N ->
  Conv.isFinite_string (JsString.of_nat i) = true.
Proof.
  intros H. unfold Conv.isFinite_string.
  rewrite stringToNumber_of_nat.
  apply negb_true_iff. apply not_true_is_false. intros C.
  apply Qle_bool_iff in C.
  assert (B : (inject_Z (Z.of_N (N.of_nat i)) * 1 < Conv.overflow_bound)%Q).
  { rewrite Qmult_1_r. unfold Conv.overflow_bound. rewrite <- Zlt_Qlt.
    apply Z.lt_trans with (2 ^ 32)%Z; [lia | reflexivity]. }
  rewrite Qabs_pos in C.
  - apply (Qlt_irrefl Conv.overflow_bound).
    eapply Qle_lt_trans; eauto.
  - rewrite Qmult_1_r. change 0%Q with (inject_Z 0). rewrite <- Zle_Qle. lia.
Qed.

(** The comparison [indexValue < length] on an index and a length. *)
Lemma string_lt_of_nat i n :
  i < n ->
  Conv.string_lt (JsString.of_nat i) (VNum (JsNumber.of_nat n)) = true.
Proof.
  intros H. unfold Conv.string_lt, JsNumber.of_nat. simpl.
  rewrite stringToNumber_of_nat. simpl.
  apply negb_true_iff. apply not_true_is_false. intros C.
  apply Qle_bool_iff in C. rewrite Qmult_1_r in C.
  rewrite <- Zle_Qle in C. lia.
Qed.

Lemma of_nat_not_length i : String.eqb (JsString.of_nat i) "length" = false.
Proof.
  pose proof (digit_string_of_nat i) as Hd.
  pose proof (of_nat_not_empty i) as Hne.
  destruct (JsString.of_nat i) as [|c r]; [congruence|].
  unfold digit_string in Hd. simpl in Hd.
  apply andb_true_iff in Hd as [Hc _]. simpl.
  digit_cases Hc; reflexivity.
Qed.

(* ------------------------------------------------------------------ *)
(** ** Property lists with distinct keys *)

Lemma existsb_eqb_In k keys :
  existsb (String.eqb k) keys = true <-> In k keys.
Proof.
  rewrite existsb_exists. split.
  - intros [x [Hx E]]. apply String.eqb_eq in E. now subst.
  - intros H. exists k. split; [assumption | apply String.eqb_refl].
Qed.

Lemma distinct_NoDup keys : distinct keys = true <-> NoDup keys.
Proof.
  induction keys as [|k rest IH]; simpl.
  - split; [constructor | reflexivity].
  - rewrite andb_true_iff, negb_true_iff, IH. split.
    + intros [H1 H2]. constructor; [|assumption].
      intros C. apply existsb_eqb_In in C. congruence.
    + intros H. inversion H; subst. split; [|assumption].
      apply not_true_is_false. now rewrite existsb_eqb_In.
Qed.

Lemma lookup_not_In k props :
  ~ In k (map fst props) -> Js.lookup k props = None.
Proof.
  induction props as [|[k' v] rest IH]; simpl; [reflexivity|].
  intros H. destruct (String.eqb_spec k k') as [->|_].
  - exfalso. apply H. now left.
  - apply IH. intros C. apply H. now right.
Qed.

Lemma lookup_In k v props :
  NoDup (map fst props) -> In (k, v) props -> Js.lookup k props = Some v.
Proof.
  induction props as [|[k' v'] rest IH]; simpl; [contradiction|].
  intros Hnd [E|Hin].
  - injection E as -> ->. now rewrite String.eqb_refl.
  - inversion Hnd; subst. destruct (String.eqb_spec k k') as [->|_].
    + exfalso. apply H1. apply in_map_iff. now exists (k', v).
    + now apply IH.
Qed.

Lemma lookup_Some_In k v props :
  Js.lookup k props = Some v -> In (k, v) props.
Proof.
  induction props as [|[k' v'] rest IH]; simpl; [discriminate|].
  destruct (String.eqb_spec k k') as [->|_].
  - intros [= ->]. now left.
  - intros H. right. now apply IH.
Qed.

Lemma lookup_map (f : value -> value) k v props :
  Js.lookup k props = Some v ->
  Js.lookup k (map (fun kv => (fst kv, f (snd kv))) props) = Some (f v).
Proof.
  induction props as [|[k' v'] rest IH]; simpl; [discriminate|].
  destruct (String.eqb k k'); [now intros [= ->] | assumption].
Qed.

(** Defining a key that is not there yet appends it. *)
Lemma defineProperty_fresh acc k v :
  ~ In k (map fst acc) -> Js.defineProperty acc k v = (acc ++ [(k, v)])%list.
Proof.
  induction acc as [|[k' v'] rest IH]; simpl; [reflexivity|].
  intros H. destruct (String.eqb_spec k k') as [->|_].
  - exfalso. apply H. now left.
  - f_equal. apply IH. intros C. apply H. now right.
Qed.

Lemma NoDup_app_head {A} (l : list A) x r :
  NoDup (l ++ x :: r) -> ~ In x l /\ NoDup ((l ++ [x]) ++ r).
Proof.
  intros H. split.
  - apply NoDup_remove_2 in H. intros C. apply H. apply in_or_app. now left.
  - now rewrite <- app_assoc.
Qed.

(** The loop of [object2Map] on distinct keys encodes field by field. *)
Lemma map_loop_distinct encode props : forall acc,
  NoDup (map fst acc ++ map fst props) ->
  map_loop encode props acc
  = (acc ++ map (fun kv => (fst kv, encode (snd kv))) props)%list.
Proof.
  induction props as [|[k v] rest IH]; intros acc H; simpl.
  - now rewrite app_nil_r.
  - simpl in H. apply NoDup_app_head in H as [Hk Hnd].
    rewrite (defineProperty_fresh _ _ _ Hk), IH.
    + now rewrite <- app_assoc.
    + now rewrite map_app.
Qed.

(* ------------------------------------------------------------------ *)
(** ** Shape of the encoded attributes *)

Lemma createAttribute_list l :
  createAttribute (VArr l) = VObj [("L", VArr (map createAttribute l))].
Proof. reflexivity. Qed.

Lemma createAttributeWith_object fallback ps :
  createAttributeWith fallback (VObj ps)
  = let newProperty :=
      match map_or_null fallback
              (map_loop (createAttributeWith fallback) ps []) with
      | VObj source => Object_assign [] source
      | _ => []
      end in
    if (0 <? length newProperty)%nat then VObj newProperty else fallback.
Proof. reflexivity. Qed.

(** On a map, [createAttribute] returns what [object2Map] returns. *)
Lemma createAttribute_object ps :
  createAttribute (VObj ps)
  = map_or_null NULL_attribute (map_loop createAttribute ps []).
Proof.
  unfold createAttribute at 1.
  change (createAttributeWith VUndefined VNull) with NULL_attribute.
  rewrite createAttributeWith_object.
  change (createAttributeWith NULL_attribute) with createAttribute.
  unfold map_or_null.
  destruct (map_loop createAttribute ps []) as [|p rest]; reflexivity.
Qed.

Lemma createAttribute_record ps :
  ps <> [] -> NoDup (map fst ps) ->
  createAttribute (VObj ps) = VObj [("M", VObj (attributes_of ps))].
Proof.
  intros Hne Hnd. rewrite createAttribute_object, map_loop_distinct by assumption.
  destruct ps as [|p rest]; [congruence | reflexivity].
Qed.

(** Every attribute is an object with exactly one key. *)
Lemma createAttribute_single_key v :
  exists code x, createAttribute v = VObj [(code, x)].
Proof.
  destruct v as [| |b|x|s|l|ps].
  - now exists "NULL", (VBool true).
  - now exists "NULL", (VBool true).
  - now exists "BOOL", (VBool b).
  - unfold createAttribute. simpl. destruct (JsNumber.isFinite x); simpl; eauto.
  - unfold createAttribute. simpl.
    destruct (0 <? String.length (JsString.trim s))%nat; simpl; eauto.
  - rewrite createAttribute_list. eauto.
  - rewrite createAttribute_object. unfold map_or_null.
    destruct (0 <? length (map_loop createAttribute ps []))%nat;
      unfold NULL_attribute; eauto.
Qed.

Lemma createAttribute_not_false v : createAttribute v <> VBool false.
Proof.
  destruct (createAttribute_single_key v) as [code [x ->]]. discriminate.
Qed.

(** With no token left, the switch does not raise on a single-key
    attribute. *)
Lemma descend_last attributeFound code x :
  exists found,
    descend attributeFound (VObj [(code, x)]) code [] = Ok found.
Proof.
  unfold descend. destruct (scalar_code code); [eauto|].
  destruct (String.eqb code "M"); [simpl; eauto|].
  destruct (list_code code); simpl; eauto.
Qed.

(** One step of the walk on a token the attribute reached owns. *)
Lemma walk_owned current nextPath attributeFound returnAttribute code x :
  Js.hasOwnProperty attributeFound current = Ok true ->
  Js.get attributeFound current = Ok (VObj [(code, x)]) ->
  walk (current :: nextPath) attributeFound returnAttribute
  = (found <- descend attributeFound (VObj [(code, x)]) code nextPath ;;
     walk nextPath found (VObj [(code, x)])).
Proof. intros H1 H2. cbn [walk]. rewrite H1. simpl. rewrite H2. reflexivity. Qed.

(** What [indexable] says of a map and of a list. *)
Lemma indexable_object ps :
  indexable (VObj ps) = true ->
  Js.lookup "hasOwnProperty" ps = None
  /\ NoDup (map fst ps)
  /\ forallb (fun kv => indexable (snd kv)) ps = true.
Proof.
  change (indexable (VObj ps))
    with (distinct ("hasOwnProperty" :: map fst ps)
          && forallb (fun kv => indexable (snd kv)) ps).
  intros H. apply andb_true_iff in H as [Hd Hall].
  apply distinct_NoDup in Hd. inversion Hd; subst.
  repeat split; auto. now apply lookup_not_In.
Qed.

Lemma indexable_list l :
  indexable (VArr l) = true ->
  (N.of_nat (length l) < 2 ^ 32)%N
  /\ forallb (fun p => element_indexable p && indexable p) l = true.
Proof.
  change (indexable (VArr l))
    with ((N.of_nat (length l) <? 2 ^ 32)%N
          && forallb (fun p => element_indexable p && indexable p) l).
  intros H. apply andb_true_iff in H as [Hlen Hall].
  split; [now apply N.ltb_lt | assumption].
Qed.

Lemma lookup_map_None (f : value -> value) k props :
  Js.lookup k props = None ->
  Js.lookup k (map (fun kv => (fst kv, f (snd kv))) props) = None.
Proof.
  induction props as [|[k' v'] rest IH]; simpl; [reflexivity|].
  destruct (String.eqb k k'); [discriminate | assumption].
Qed.

(** The attributes of the fields own the keys of the fields. *)
Lemma attributes_own ps t child :
  Js.lookup "hasOwnProperty" ps = None ->
  Js.lookup t ps = Some child ->
  Js.hasOwnProperty (VObj (attributes_of ps)) t = Ok true
  /\ Js.get (VObj (attributes_of ps)) t = Ok (createAttribute child).
Proof.
  intros Hm Hl. unfold Js.hasOwnProperty, Js.get, attributes_of.
  rewrite (lookup_map_None createAttribute _ _ Hm).
  now rewrite (lookup_map createAttribute _ _ _ Hl).
Qed.

(* ------------------------------------------------------------------ *)
(** ** Descending through the index of a value *)

Lemma steps_of_list l : steps_of (VArr l) = steps_from l 0.
Proof. reflexivity. Qed.

Lemma in_steps_cons steps t rest :
  in_steps steps (t :: rest) = true ->
  exists sp steps',
    In (VObj sp) steps /\ Js.lookup t sp = Some (VArr steps')
    /\ in_steps steps' rest = true.
Proof.
  cbn [in_steps]. rewrite existsb_exists. intros [step [Hin H]].
  destruct step as [| | | | | |sp]; try discriminate.
  destruct (Js.lookup t sp) as [[| | | | |steps'|]|] eqn:E; try discriminate.
  now exists sp, steps'.
Qed.

Lemma In_steps_from step l : forall i0,
  In step (steps_from l i0) ->
  exists j child,
    nth_error l j = Some child
    /\ step = VObj [(JsString.of_nat (i0 + j), VArr (steps_of child))].
Proof.
  induction l as [|p rest IH]; intros i0; simpl; [contradiction|].
  intros [<-|H].
  - exists 0, p. now rewrite Nat.add_0_r.
  - destruct (IH _ H) as [j [child [Hj ->]]].
    exists (S j), child. split; [assumption|]. now rewrite Nat.add_succ_r.
Qed.

Lemma forallb_nth_error {A} (f : A -> bool) l i x :
  forallb f l = true -> nth_error l i = Some x -> f x = true.
Proof.
  intros H Hi. rewrite forallb_forall in H. apply H.
  eapply nth_error_In; eauto.
Qed.

(** A token that descends through the steps of a value names a field of
    a map or an index of a list. *)
Lemma in_steps_child v t rest :
  indexable v = true ->
  in_steps (steps_of v) (t :: rest) = true ->
  exists child,
    indexable child = true /\ in_steps (steps_of child) rest = true
    /\ ((exists ps, v = VObj ps /\ ps <> [] /\ NoDup (map fst ps)
                    /\ Js.lookup "hasOwnProperty" ps = None
                    /\ Js.lookup t ps = Some child)
        \/ (exists l i, v = VArr l /\ (N.of_nat (length l) < 2 ^ 32)%N
                        /\ t = JsString.of_nat i
                        /\ nth_error l i = Some child)).
Proof.
  intros Hv H. apply in_steps_cons in H as [sp [steps' [Hin [Hl Hr]]]].
  destruct v as [| | | | |l|ps]; try contradiction.
  - rewrite steps_of_list in Hin.
    apply In_steps_from in Hin as [j [child [Hj E]]].
    injection E as ->. simpl in Hl.
    apply indexable_list in Hv as [Hlen Hall].
    destruct (String.eqb_spec t (JsString.of_nat j)) as [->|_];
      [|discriminate].
    injection Hl as <-.
    pose proof (forallb_nth_error _ _ _ _ Hall Hj) as Hc.
    apply andb_true_iff in Hc as [_ Hc].
    exists child. repeat split; auto. right. exists l, j.
    repeat split; auto.
  - simpl in Hin. apply indexable_object in Hv as [Hm [Hd Hall]].
    apply in_map_iff in Hin as [[k child] [E Hin]]. simpl in E.
    injection E as <-. simpl in Hl.
    destruct (String.eqb_spec t k) as [->|_]; [|discriminate].
    injection Hl as <-.
    rewrite forallb_forall in Hall. pose proof (Hall _ Hin) as Hc.
    exists child. repeat split; auto. left. exists ps.
    repeat split; auto.
    + intros ->. contradiction.
    + now apply lookup_In.
Qed.

(* ------------------------------------------------------------------ *)
(** ** Walking the attribute tree along a path of the index *)

Lemma own_map_of_nat l i child :
  nth_error l i = Some child ->
  Js.own (map createAttribute l) (JsString.of_nat i)
  = Some (createAttribute child).
Proof.
  intros H. unfold Js.own.
  rewrite of_nat_not_length, index_of_key_of_nat.
  now apply map_nth_error.
Qed.

Lemma descend_list attributeFound l i rest :
  (N.of_nat (length l) < 2 ^ 32)%N ->
  i < length l ->
  descend attributeFound (VObj [("L", VArr (map createAttribute l))]) "L"
    (JsString.of_nat i :: rest)
  = Ok (VArr (map createAttribute l)).
Proof.
  intros Hlen Hi. unfold descend.
  change (scalar_code "L") with false. change (String.eqb "L" "M") with false.
  change (list_code "L") with true. cbv iota.
  destruct rest as [|t' rest']; [reflexivity|].
  change (1 <? length (JsString.of_nat i :: t' :: rest'))%nat with true.
  cbv iota. cbn [nth].
  rewrite isFinite_string_of_nat by lia.
  change (Js.get (VObj [("L", VArr (map createAttribute l))]) "L")
    with (Ok (VArr (map createAttribute l))).
  cbn [bind].
  change (Js.get (VArr (map createAttribute l)) "length")
    with (Ok (VNum (JsNumber.of_nat (length (map createAttribute l))))).
  cbn [bind].
  rewrite string_lt_of_nat; [reflexivity|]. now rewrite length_map.
Qed.

(** From a token that leads to the attribute of [v], every descent
    through the steps of [v] reaches an attribute. *)
Lemma walk_resolves rest : forall v found t returnAttribute,
  indexable v = true ->
  in_steps (steps_of v) rest = true ->
  Js.hasOwnProperty found t = Ok true ->
  Js.get found t = Ok (createAttribute v) ->
  exists a, walk (t :: rest) found returnAttribute = Ok a /\ a <> VBool false.
Proof.
  induction rest as [|t' rest' IH]; intros v found t ret Hv Hin Hown Hget.
  - destruct (createAttribute_single_key v) as [code [x E]].
    rewrite E in Hget. rewrite (walk_owned _ _ _ _ _ _ Hown Hget).
    destruct (descend_last found code x) as [found' ->].
    simpl. eexists. split; [reflexivity | discriminate].
  - destruct (in_steps_child _ _ _ Hv Hin)
      as [child [Hc [Hr [[ps [-> [Hne [Hnd [Hm Hl]]]]]
                        | [l [i [-> [Hlen [-> Hi]]]]]]]]].
    + rewrite (createAttribute_record _ Hne Hnd) in Hget.
      rewrite (walk_owned _ _ _ _ _ _ Hown Hget).
      change (descend found (VObj [("M", VObj (attributes_of ps))]) "M"
                (t' :: rest'))
        with (Ok (VObj (attributes_of ps))).
      cbn [bind].
      destruct (attributes_own _ _ _ Hm Hl) as [Ho Hg].
      now apply (IH child).
    + rewrite createAttribute_list in Hget.
      rewrite (walk_owned _ _ _ _ _ _ Hown Hget).
      assert (Hlt : i < length l) by (apply nth_error_Some; congruence).
      rewrite (descend_list _ _ _ _ Hlen Hlt).
      cbn [bind]. apply (IH child); auto.
      * simpl. now rewrite (own_map_of_nat _ _ _ Hi).
      * simpl. now rewrite (own_map_of_nat _ _ _ Hi).
Qed.

(* ------------------------------------------------------------------ *)
(** ** The index [getPropertyPaths] builds *)

Lemma depth_list_element l p n :
  depth (VArr l) <= n -> In p l -> depth p < n.
Proof.
  simpl. intros H Hin.
  assert (B : list_max (map depth l) <= list_max (map depth l)) by lia.
  apply list_max_le in B. rewrite Forall_forall in B.
  specialize (B (depth p) (in_map depth l p Hin)). lia.
Qed.

Lemma depth_map_field ps k v n :
  depth (VObj ps) <= n -> In (k, v) ps -> depth v < n.
Proof.
  simpl. intros H Hin.
  set (ds := map (fun kv : string * value => depth (snd kv)) ps) in *.
  assert (B : list_max ds <= list_max ds) by lia.
  apply list_max_le in B. rewrite Forall_forall in B.
  assert (Hd : In (depth v) ds) by (apply in_map_iff; now exists (k, v)).
  specialize (B _ Hd). lia.
Qed.

Section Steps.

(** A recursive call that indexes every single-field object whose
    value nests less than [n] deep. *)
Variable self : value -> fueled value.
Variable n : nat.
Hypothesis self_single : forall k v,
  depth v < n -> indexable v = true ->
  self (VObj [(k, v)]) = fret (VObj [(k, VArr (steps_of v))]).

Lemma array_steps_spec l : forall i pathsArray,
  (forall p, In p l -> depth p < n) ->
  forallb (fun p => element_indexable p && indexable p) l = true ->
  array_steps self l i pathsArray
  = fret (pathsArray ++ steps_from l i)%list.
Proof.
  induction l as [|p rest IH]; intros i acc Hd Hall; simpl.
  - now rewrite app_nil_r.
  - simpl in Hall. apply andb_true_iff in Hall as [Hp Hrest].
    apply andb_true_iff in Hp as [He Hp].
    unfold element_indexable in He.
    destruct (Js.get p "1") as [p1|]; [|discriminate].
    apply negb_true_iff in He. cbn [fbind]. rewrite He.
    cbn [fret fbind]. cbn [addObjectProperty Js.defineProperty].
    rewrite self_single by (auto; apply Hd; now left).
    cbn [fret fbind]. rewrite IH by (auto; intros q Hq; apply Hd; now right).
    now rewrite <- app_assoc.
Qed.

Lemma object_steps_spec ps : forall pathsArray,
  (forall kv, In kv ps -> depth (snd kv) < n) ->
  forallb (fun kv => indexable (snd kv)) ps = true ->
  object_steps self ps pathsArray
  = fret (pathsArray
          ++ map (fun kv => VObj [(fst kv, VArr (steps_of (snd kv)))]) ps)%list.
Proof.
  induction ps as [|[k v] rest IH]; intros acc Hd Hall; simpl.
  - now rewrite app_nil_r.
  - simpl in Hall. apply andb_true_iff in Hall as [Hv Hrest].
    cbn [addObjectProperty Js.defineProperty].
    rewrite self_single by (auto; apply (Hd (k, v)); now left).
    cbn [fret fbind]. rewrite IH by (auto; intros q Hq; apply Hd; now right).
    now rewrite <- app_assoc.
Qed.

(** The steps pushed for one field. *)
Lemma steps_spec v :
  depth v <= n -> indexable v = true ->
  match v with
  | VArr l => array_steps self l 0 []
  | VObj ps => object_steps self ps []
  | _ => fret []
  end = fret (steps_of v).
Proof.
  intros Hd Hv. destruct v as [| | | | |l|ps]; try reflexivity.
  - apply indexable_list in Hv as [_ Hall].
    rewrite array_steps_spec; auto.
    intros p Hp. apply (depth_list_element _ _ _ Hd Hp).
  - apply indexable_object in Hv as [_ [_ Hall]].
    rewrite object_steps_spec; auto.
    intros [k v] Hp. apply (depth_map_field _ _ _ _ Hd Hp).
Qed.

(** The loop over the fields of a record with distinct keys. *)
Lemma entries_loop_spec props : forall pathsObject,
  NoDup (map fst pathsObject ++ map fst props) ->
  (forall kv, In kv props -> depth (snd kv) <= n) ->
  forallb (fun kv => indexable (snd kv)) props = true ->
  entries_loop self props pathsObject
  = fret (pathsObject ++ index_of props)%list.
Proof.
  induction props as [|[k v] rest IH]; intros acc Hnd Hd Hall; simpl.
  - now rewrite app_nil_r.
  - simpl in Hall. apply andb_true_iff in Hall as [Hv Hrest].
    rewrite steps_spec by (auto; apply (Hd (k, v)); now left).
    cbn [fret fbind]. simpl in Hnd.
    apply NoDup_app_head in Hnd as [Hk Hnd].
    unfold addObjectProperty. rewrite (defineProperty_fresh _ _ _ Hk).
    rewrite IH.
    + now rewrite <- app_assoc.
    + now rewrite map_app.
    + intros q Hq. apply Hd. now right.
    + assumption.
Qed.

End Steps.

(** With more fuel than the depth of [v], the object [{k: v}] is indexed
    by the steps of [v]. *)
Lemma getPropertyPaths_single fuel : forall k v,
  depth v < fuel -> indexable v = true ->
  getPropertyPaths fuel (VObj [(k, v)])
  = fret (VObj [(k, VArr (steps_of v))]).
Proof.
  induction fuel as [|f IH]; intros k v Hd Hv; [lia|].
  cbn [getPropertyPaths Js.entries fbind entries_loop].
  rewrite (steps_spec (getPropertyPaths f) f IH) by (auto; lia).
  reflexivity.
Qed.

(** [getPropertyPaths] returns the index of an indexable record. *)
Lemma getPropertyPaths_record fuel props :
  depth (VObj props) < fuel -> indexable (VObj props) = true ->
  getPropertyPaths fuel (VObj props) = fret (VObj (index_of props)).
Proof.
  intros Hd Hv. destruct fuel as [|f]; [lia|].
  apply indexable_object in Hv as [_ [Hk Hall]].
  cbn [getPropertyPaths Js.entries fbind].
  rewrite (entries_loop_spec (getPropertyPaths f) f
             (getPropertyPaths_single f)); auto.
  intros [k v] Hin.
  pose proof (depth_map_field props k v (S f) ltac:(lia) Hin). simpl. lia.
Qed.

(* ------------------------------------------------------------------ *)
(** ** More fuel does not change a result *)

Lemma fbind_mono {A B} (m m' : fueled A) (f f' : A -> fueled B) r :
  (forall x, m = Some x -> m' = Some x) ->
  (forall a y, f a = Some y -> f' a = Some y) ->
  fbind m f = Some r -> fbind m' f' = Some r.
Proof.
  intros Hm Hf. destruct m as [[a|e]|]; simpl; intros H.
  - rewrite (Hm _ eq_refl). simpl. now apply Hf.
  - now rewrite (Hm _ eq_refl).
  - discriminate.
Qed.

Section Monotone.

Variables self self' : value -> fueled value.
Hypothesis self_mono : forall x r, self x = Some r -> self' x = Some r.

Lemma array_steps_mono l : forall i pathsArray r,
  array_steps self l i pathsArray = Some r ->
  array_steps self' l i pathsArray = Some r.
Proof.
  induction l as [|p rest IH]; intros i acc r; cbn [array_steps]; [auto|].
  apply fbind_mono; [auto|]. intros p1 y.
  apply fbind_mono; [destruct (isObject p1); auto|]. intros subValue y'.
  apply fbind_mono; [auto|]. intros step y''. apply IH.
Qed.

Lemma object_steps_mono ps : forall pathsArray r,
  object_steps self ps pathsArray = Some r ->
  object_steps self' ps pathsArray = Some r.
Proof.
  induction ps as [|[k v] rest IH]; intros acc r; cbn [object_steps];
    [auto|].
  apply fbind_mono; [auto|]. intros step y. apply IH.
Qed.

Lemma entries_loop_mono es : forall pathsObject r,
  entries_loop self es pathsObject = Some r ->
  entries_loop self' es pathsObject = Some r.
Proof.
  induction es as [|[k v] rest IH]; intros acc r; cbn [entries_loop];
    [auto|].
  apply fbind_mono.
  - destruct v; auto; intros x; [apply array_steps_mono | apply object_steps_mono].
  - intros pathsArray y. apply IH.
Qed.

End Monotone.

Lemma getPropertyPaths_more_fuel fuel : forall o r,
  getPropertyPaths fuel o = Some r -> getPropertyPaths (S fuel) o = Some r.
Proof.
  induction fuel as [|f IH]; intros o r; [discriminate|].
  change (getPropertyPaths (S f) o)
    with (es <~ Some (Js.entries o) ;;
          pathsObject <~ entries_loop (getPropertyPaths f) es [] ;;
          fret (VObj pathsObject)).
  change (getPropertyPaths (S (S f)) o)
    with (es <~ Some (Js.entries o) ;;
          pathsObject <~ entries_loop (getPropertyPaths (S f)) es [] ;;
          fret (VObj pathsObject)).
  apply fbind_mono; [auto|]. intros es y.
  apply fbind_mono; [|auto]. intros x. now apply entries_loop_mono.
Qed.

Lemma getPropertyPaths_fuel_le fuel fuel' o r :
  fuel <= fuel' ->
  getPropertyPaths fuel o = Some r -> getPropertyPaths fuel' o = Some r.
Proof.
  intros Hle. induction Hle as [|m Hle IH]; [auto|].
  intros Hr. now apply getPropertyPaths_more_fuel, IH.
Qed.

(** The result of [getPropertyPaths] does not depend on the fuel that
    was enough to compute it. *)
Lemma getPropertyPaths_deterministic fuel fuel' o r r' :
  getPropertyPaths fuel o = Some r ->
  getPropertyPaths fuel' o = Some r' -> r = r'.
Proof.
  intros H H'.
  apply (getPropertyPaths_fuel_le _ (Nat.max fuel fuel')) in H; [|lia].
  apply (getPropertyPaths_fuel_le _ (Nat.max fuel fuel')) in H'; [|lia].
  congruence.
Qed.

(* ------------------------------------------------------------------ *)
(** ** Paths of the index against the attribute tree *)

Lemma all_strings_map_VStr path : all_strings (map VStr path) = true.
Proof. induction path; simpl; auto. Qed.

Lemma strings_of_map_VStr path : strings_of (map VStr path) = path.
Proof.
  unfold strings_of. induction path as [|t rest IH]; simpl; congruence.
Qed.

(** A path of the index of a record starts at a field of the record and
    descends through the steps of its value. *)
Lemma path_in_index_of props path :
  indexable (VObj props) = true ->
  path_in_index (VObj (index_of props)) path = true ->
  exists k rest v,
    path = k :: rest /\ Js.lookup k props = Some v
    /\ indexable v = true /\ in_steps (steps_of v) rest = true.
Proof.
  intros Hv H. destruct path as [|k rest]; [discriminate|].
  simpl in H. apply indexable_object in Hv as [_ [Hd Hall]].
  destruct (Js.lookup k (index_of props)) as [s|] eqn:E; [|discriminate].
  apply lookup_Some_In in E. apply in_map_iff in E as [[k' v] [E Hin]].
  simpl in E. injection E as -> <-.
  exists k, rest, v. repeat split; auto.
  - now apply lookup_In.
  - rewrite forallb_forall in Hall. apply (Hall _ Hin).
Qed.

(** Resolution of a path of the index in the attributes of the fields. *)
Lemma getAttributeAtPath_index_path props path :
  indexable (VObj props) = true ->
  path_in_index (VObj (index_of props)) path = true ->
  exists a,
    getAttributeAtPath (VObj (attributes_of props)) (VArr (map VStr path))
      VUndefined = Ok a
    /\ a <> VBool false.
Proof.
  intros Hv H.
  destruct (path_in_index_of _ _ Hv H) as [k [rest [v [-> [Hl [Hi Hs]]]]]].
  destruct (indexable_object _ Hv) as [Hm _].
  destruct (attributes_own _ _ _ Hm Hl) as [Hown Hget].
  unfold getAttributeAtPath, localPath_of.
  rewrite all_strings_map_VStr, strings_of_map_VStr.
  cbv beta iota zeta. rewrite Hown. cbn [bind isObject Js.isObject andb negb orb].
  now apply (walk_resolves rest v).
Qed.

(** C5, the claim as stated fails: the attribute of a record is
    [{M: {...}}], whose only key is [M], so the first token of a path of
    the index is not a key of it and resolution returns [false]. *)
Lemma encoded_record_does_not_resolve :
  let record := VObj [("a", VStr "x")] in
  getPropertyPaths 1 record = Some (Ok (VObj [("a", VArr [])]))
  /\ path_in_index (VObj [("a", VArr [])]) ["a"] = true
  /\ createAttribute record = VObj [("M", VObj [("a", VObj [("S", VStr "x")])])]
  /\ getAttributeAtPath (createAttribute record) (VArr [VStr "a"]) VUndefined
     = Ok (VBool false).
Proof. repeat split. Qed.

(** C5, amended: for every record of distinct keys whose lists have no
    element [p] that is [null] or [undefined] or whose [p[1]] is a list
    or a map, [getPropertyPaths] returns an index, the attribute of a
    record with a field is [{M: attributes}], and every path present in
    the index resolves in [attributes], the attributes of the fields:
    [getAttributeAtPath(attributes, path)] returns an attribute and not
    [false]. *)
Theorem index_paths_resolve props :
  indexable (VObj props) = true ->
  (exists fuel idx, getPropertyPaths fuel (VObj props) = Some (Ok idx))
  /\ (props <> [] ->
      createAttribute (VObj props) = VObj [("M", VObj (attributes_of props))])
  /\ (forall fuel idx path,
        getPropertyPaths fuel (VObj props) = Some (Ok idx) ->
        path_in_index idx path = true ->
        exists a,
          getAttributeAtPath (VObj (attributes_of props))
            (VArr (map VStr path)) VUndefined = Ok a
          /\ a <> VBool false).
Proof.
  intros Hv.
  pose proof (getPropertyPaths_record (S (depth (VObj props))) props
                (Nat.lt_succ_diag_r _) Hv) as Hidx.
  split; [|split].
  - eauto.
  - intros Hne. apply createAttribute_record; [assumption|].
    now apply indexable_object in Hv as [_ [Hd _]].
  - intros fuel idx path Hf Hp.
    pose proof (getPropertyPaths_deterministic _ _ _ _ _ Hf Hidx) as E.
    injection E as ->. now apply getAttributeAtPath_index_path.
Qed.

Lemma index_paths_resolve_witness :
  indexable (VObj documented_record) = true
  /\ exists a,
       getAttributeAtPath (VObj (attributes_of documented_record))
         (VArr (map VStr documented_path)) VUndefined = Ok a
       /\ a <> VBool false.
Proof.
  split; [reflexivity|].
  refine (proj2 (proj2 (index_paths_resolve documented_record _))
            10 _ documented_path _ _);
    reflexivity.
Defined.

(** On the documented record the path resolves to the attribute of the
    universe of the first version. *)
Example documented_path_attribute :
  getAttributeAtPath (VObj (attributes_of documented_record))
    (VArr (map VStr documented_path)) VUndefined
  = Ok (VObj [("S", VStr "31c-12")])
  /\ toArrayPath (VObj (index_of documented_record))
       (VStr (JsString.join "." documented_path)) VUndefined
     = Ok (VArr (map VStr documented_path)).
Proof. split; vm_compute; reflexivity. Qed.

(** Two inputs outside the amended claim: a list element [null] makes
    [getPropertyPaths] raise on [p[1]]. *)
Lemma getPropertyPaths_null_element fuel :
  getPropertyPaths (S fuel) (VObj [("a", VArr [VNull])])
  = Some (Throw TypeError).
Proof. reflexivity. Qed.

(** A list element whose [p[1]] is a list is indexed a second time, from
    its own index: the call for [{0: {0: [{1: []}]}}] reaches itself
    again, so no amount of fuel returns. *)
Lemma getPropertyPaths_element_index fuel :
  let p := VObj [("1", VArr [])] in
  getPropertyPaths fuel (VObj [("0", p)]) = None
  \/ getPropertyPaths fuel (VObj [("0", p)])
     = Some (Ok (VObj [("0", VArr [p])])).
Proof.
  intros p. destruct (getPropertyPaths fuel (VObj [("0", p)])) as [r|] eqn:E;
    [right | now left].
  f_equal. apply (getPropertyPaths_deterministic fuel 3 (VObj [("0", p)]));
    [assumption | reflexivity].
Qed.

Lemma getPropertyPaths_reaches_itself fuel :
  getPropertyPaths fuel
    (VObj [("0", VObj [("0", VArr [VObj [("1", VArr [])]])])]) = None.
Proof.
  induction fuel as [fuel IH] using lt_wf_ind.
  destruct fuel as [|[|f]]; try reflexivity.
  cbn [getPropertyPaths Js.entries fbind entries_loop object_steps
       addObjectProperty Js.defineProperty array_steps Js.get Js.lookup
       String.eqb Ascii.eqb Bool.eqb isObject Js.isObject].
  change (JsString.of_nat 0) with "0".
  destruct (getPropertyPaths_element_index f) as [E|E];
    cbv zeta in E; rewrite E; cbn [fbind]; [reflexivity|].
  rewrite (IH f) by lia. reflexivity.
Qed.

Lemma getPropertyPaths_does_not_return fuel :
  getPropertyPaths fuel (VObj [("a", VArr [VObj [("1", VArr [])]])]) = None.
Proof.
  destruct fuel as [|f]; [reflexivity|].
  cbn [getPropertyPaths Js.entries fbind entries_loop object_steps
       addObjectProperty Js.defineProperty array_steps Js.get Js.lookup
       String.eqb Ascii.eqb Bool.eqb isObject Js.isObject].
  change (JsString.of_nat 0) with "0".
  destruct (getPropertyPaths_element_index f) as [E|E];
    cbv zeta in E; rewrite E; cbn [fbind]; [reflexivity|].
  now rewrite getPropertyPaths_reaches_itself.
Qed.

(* ================================================================== *)
(** * Further properties *)

(* ------------------------------------------------------------------ *)
(** ** Size accounting: the billing rule *)

Lemma kilobytes_billed_closed (n : nat) :
  kilobytes_billed n = ((Z.of_nat n + 1018) / 1024)%Z.
Proof.
  unfold kilobytes_billed, hundredths_of_kilobyte.
  set (m := Z.of_nat n).
  assert (Hm : (0 <= m)%Z) by (unfold m; lia).
  clearbody m.
  pose proof (Z.div_mod (m * 100 + 512) 1024 ltac:(lia)) as H1.
  pose proof (Z.mod_pos_bound (m * 100 + 512) 1024 ltac:(lia)) as H2.
  pose proof (Z.div_mod (m + 1018) 1024 ltac:(lia)) as H3.
  pose proof (Z.mod_pos_bound (m + 1018) 1024 ltac:(lia)) as H4.
  symmetry. apply Z.div_unique with
    (r := ((m * 100 + 512) / 1024 + 99 - 100 * ((m + 1018) / 1024))%Z);
    lia.
Qed.

(** X1: the two-decimal rounding before the ceiling forgives up to five
    bytes over every kilobyte boundary: every record with a field has
    the size [(bytes + 1018) div 1024], [bytes] being the sum of the
    sizes of its fields, which is the number of started kilobytes only
    when the bytes over the last boundary are more than five. *)
Theorem itemSizeCount_closed_form props :
  props <> [] ->
  exists sizes,
    field_sizes props sizes
    /\ itemSizeCount (VObj props)
       = Ok (VNum (Int ((Z.of_nat (list_sum sizes) + 1018) / 1024))).
Proof.
  intros Hne. destruct (field_sizes_exist props) as [sizes H].
  exists sizes. split; [exact H|].
  rewrite (itemSizeCount_fields _ _ Hne H).
  now rewrite kilobytes_billed_closed.
Qed.

Lemma itemSizeCount_closed_form_witness :
  itemSizeCount (VObj [("a", VStr (JsString.repeat "x" 1028))])
  = Ok (VNum (Int 1)).
Proof.
  destruct (itemSizeCount_closed_form
              [("a", VStr (JsString.repeat "x" 1028))])
    as (sizes & Hs & H); [discriminate|].
  rewrite H. inversion Hs as [|kv n rest sizes' Hn Hrest]; subst.
  inversion Hrest; subst.
  vm_compute in Hn. injection Hn as <-. reflexivity.
Defined.

Lemma field_sizes_app props sizes k v n :
  field_sizes props sizes ->
  getObjectSize (Some k) v = Ok n ->
  field_sizes (props ++ [(k, v)]) (sizes ++ [n]).
Proof.
  intros H Hn. apply Forall2_app; [assumption|].
  constructor; [exact Hn | constructor].
Qed.

(** X2: adding a field, whatever its value, to a record with a field
    never makes the reported size smaller. *)
Theorem itemSizeCount_monotone props k v :
  props <> [] ->
  ~ In k (map fst props) ->
  exists a b,
    itemSizeCount (VObj props) = Ok (VNum (Int a))
    /\ itemSizeCount (VObj (props ++ [(k, v)])) = Ok (VNum (Int b))
    /\ (a <= b)%Z.
Proof.
  intros Hne _.
  destruct (field_sizes_exist props) as [sizes H].
  destruct (getObjectSize_named k v) as [n Hn].
  pose proof (field_sizes_app _ _ _ _ _ H Hn) as H'.
  exists ((Z.of_nat (list_sum sizes) + 1018) / 1024)%Z,
         ((Z.of_nat (list_sum (sizes ++ [n])) + 1018) / 1024)%Z.
  rewrite <- !kilobytes_billed_closed.
  split; [now apply itemSizeCount_fields|].
  split.
  - apply itemSizeCount_fields; [|assumption].
    destruct props; [congruence | discriminate].
  - rewrite !kilobytes_billed_closed.
    apply Z.div_le_mono; [lia|]. rewrite list_sum_app. simpl. lia.
Qed.

Lemma itemSizeCount_monotone_witness :
  exists a b,
    itemSizeCount (VObj [("a", VStr "x")]) = Ok (VNum (Int a))
    /\ itemSizeCount (VObj ([("a", VStr "x")] ++ [("b", VArr [VNull])]))
       = Ok (VNum (Int b))
    /\ (a <= b)%Z.
Proof.
  refine (itemSizeCount_monotone [("a", VStr "x")] "b" (VArr [VNull]) _ _).
  - discriminate.
  - simpl. intros [H|[]]. discriminate H.
Defined.

(* ------------------------------------------------------------------ *)
(** ** Size accounting: lists and maps *)



(** X4: under a name, the size of a list is the length of the name, 3
    bytes, and 3 bytes for every element, whatever the elements are:
    two lists with the same number of elements have the same size, and
    [["xyz", {a: [1, 2]}]] has the size of [[undefined, undefined]]. *)
Theorem arraySizeCount_result name l l' :
  getObjectSize (Some name) (VArr l)
  = Ok (String.length name + 3 + 3 * length l)
  /\ (length l = length l' ->
      getObjectSize (Some name) (VArr l) = getObjectSize (Some name) (VArr l'))
  /\ getObjectSize (Some "k")
       (VArr [VStr "xyz"; VObj [("a", VArr [VNum (Int 1); VNum (Int 2)])]])
     = getObjectSize (Some "k") (VArr [VUndefined; VUndefined]).
Proof.
  split; [|split].
  - now rewrite getObjectSize_array, arraySizeCount_named.
  - intros E. rewrite !getObjectSize_array, !arraySizeCount_named.
    now rewrite E.
  - reflexivity.
Qed.

Lemma object_loop_sum ps : forall sizes size,
  field_sizes ps sizes ->
  object_loop ps size = Ok (size + 3 * length ps + list_sum sizes).
Proof.
  induction ps as [|[k v] rest IH]; intros sizes size H; inversion H; subst.
  - simpl. f_equal. lia.
  - simpl in *. rewrite H2. simpl. rewrite (IH _ _ H4). f_equal. lia.
Qed.

(** X5: every field of a map has a size under its own key, and the
    size of the map under a name is the length of the name, 3 bytes,
    and for every field 3 bytes and the size of the field;
    [objectSizeCount] and [getObjectSize] agree on it.  The size of
    [{k: "ab", n: {}}] under the name [m] is [1 + 3 + 3 * 2 + (3 + 4)]. *)
Theorem objectSizeCount_sum name ps :
  (exists sizes,
     field_sizes ps sizes
     /\ objectSizeCount (Some name) ps
        = Ok (String.length name + 3 + 3 * length ps + list_sum sizes)
     /\ getObjectSize (Some name) (VObj ps)
        = Ok (String.length name + 3 + 3 * length ps + list_sum sizes))
  /\ getObjectSize (Some "m") (VObj [("k", VStr "ab"); ("n", VObj [])])
     = Ok (1 + 3 + 3 * 2 + (3 + 4)).
Proof.
  split; [|reflexivity].
  destruct (field_sizes_exist ps) as [sizes H]. exists sizes.
  split; [exact H|].
  rewrite getObjectSize_object. unfold objectSizeCount. simpl.
  rewrite (object_loop_sum _ _ _ H). split; reflexivity.
Qed.





(* ------------------------------------------------------------------ *)
(** ** Trimming *)

Lemma trim_start_chars s :
  list_ascii_of_string (JsString.trim_start s)
  = drop_white (list_ascii_of_string s).
Proof.
  induction s as [|c s IH]; simpl; [reflexivity|].
  destruct (JsString.is_white_space c); [exact IH | reflexivity].
Qed.

Lemma trim_chars s :
  list_ascii_of_string (JsString.trim s)
  = rev (drop_white (rev (drop_white (list_ascii_of_string s)))).
Proof.
  unfold JsString.trim, JsString.reverse.
  rewrite list_ascii_of_string_of_list_ascii, trim_start_chars.
  rewrite list_ascii_of_string_of_list_ascii, trim_start_chars.
  reflexivity.
Qed.

Lemma drop_white_head_clean l : head_clean (drop_white l).
Proof.
  induction l as [|c l IH]; simpl; [exact I|].
  destruct (JsString.is_white_space c) eqn:E; [exact IH | exact E].
Qed.

Lemma drop_white_clean l : head_clean l -> drop_white l = l.
Proof. destruct l as [|c l]; simpl; [reflexivity|]. now intros ->. Qed.

Lemma drop_white_suffix l : exists p, l = (p ++ drop_white l)%list.
Proof.
  induction l as [|c l [p IH]]; simpl; [now exists []|].
  destruct (JsString.is_white_space c).
  - exists (c :: p). simpl. now f_equal.
  - now exists [].
Qed.

Lemma head_clean_app l r : l <> [] -> head_clean (l ++ r) -> head_clean l.
Proof. destruct l; [congruence | simpl; auto]. Qed.

(** What is left of a list that starts clean, after its trailing white
    space is dropped, still starts clean. *)
Lemma rev_drop_white_rev_clean a :
  head_clean a -> head_clean (rev (drop_white (rev a))).
Proof.
  intros Ha. destruct (drop_white_suffix (rev a)) as [p Hp].
  destruct (drop_white (rev a)) as [|c b] eqn:E; [exact I|].
  assert (Ea : a = (rev (c :: b) ++ rev p)%list).
  { rewrite <- rev_app_distr, <- Hp. now rewrite rev_involutive. }
  rewrite Ea in Ha. apply head_clean_app in Ha; [assumption|].
  simpl. intros C. now apply app_eq_nil in C as [_ C].
Qed.

(** Trimming a trimmed string changes nothing. *)
Lemma trim_idempotent s : JsString.trim (JsString.trim s) = JsString.trim s.
Proof.
  rewrite <- (string_of_list_ascii_of_string (JsString.trim (JsString.trim s))).
  rewrite <- (string_of_list_ascii_of_string (JsString.trim s)) at 2.
  f_equal. rewrite (trim_chars (JsString.trim s)), (trim_chars s).
  set (a := drop_white (list_ascii_of_string s)).
  assert (Ha : head_clean a) by apply drop_white_head_clean.
  rewrite (drop_white_clean _ (rev_drop_white_rev_clean a Ha)).
  rewrite rev_involutive.
  rewrite (drop_white_clean (drop_white (rev a)))
    by apply drop_white_head_clean.
  reflexivity.
Qed.

(* ------------------------------------------------------------------ *)
(** ** Attribute encoding: invariants *)

Lemma string_length_zero s : (0 <? String.length s)%nat = negb (String.eqb s "").
Proof. destruct s; reflexivity. Qed.

Lemma defineProperty_forallb (f : string * value -> bool) acc k v :
  forallb f acc = true -> f (k, v) = true ->
  forallb f (Js.defineProperty acc k v) = true.
Proof.
  intros Ha Hv. induction acc as [|[k' v'] rest IH]; simpl.
  - now rewrite Hv.
  - simpl in Ha. apply andb_true_iff in Ha as [H1 H2].
    destruct (String.eqb k k'); simpl.
    + now rewrite Hv, H2.
    + now rewrite H1, IH.
Qed.

Lemma map_loop_forallb (f : value -> bool) encode ps : forall acc,
  Forall (fun kv => f (encode (snd kv)) = true) ps ->
  forallb (fun kv => f (snd kv)) acc = true ->
  forallb (fun kv => f (snd kv)) (map_loop encode ps acc) = true.
Proof.
  induction ps as [|[k v] rest IH]; intros acc H Ha; simpl; [assumption|].
  inversion H; subst. apply IH; [assumption|].
  now apply (defineProperty_forallb (fun kv => f (snd kv))).
Qed.

(** X8: every attribute [createAttribute] returns is well formed: it has
    one tag among [S], [N], [BOOL], [NULL], [L] and [M]; an [S] holds a
    trimmed string that is not empty, a [NULL] holds [true], an [M] has
    at least one field, and the attributes inside an [L] or an [M] are
    well formed. *)
Theorem createAttribute_well_formed v : well_formed (createAttribute v) = true.
Proof.
  induction v as [| |b|x|s|l IH|ps IH] using value_nested_ind;
    try reflexivity.
  - unfold createAttribute. simpl. destruct (JsNumber.isFinite x); reflexivity.
  - unfold createAttribute. simpl.
    rewrite string_length_zero.
    destruct (String.eqb (JsString.trim s) "") eqn:E; simpl; [reflexivity|].
    now rewrite E, trim_idempotent, String.eqb_refl.
  - rewrite createAttribute_list.
    change (well_formed (VObj [("L", VArr (map createAttribute l))]))
      with (forallb well_formed (map createAttribute l)).
    rewrite forallb_forall. intros a Ha.
    apply in_map_iff in Ha as [e [<- He]].
    rewrite Forall_forall in IH. now apply IH.
  - rewrite createAttribute_object. unfold map_or_null.
    destruct (0 <? length (map_loop createAttribute ps []))%nat eqn:L;
      [|reflexivity].
    change (well_formed (VObj [("M", VObj (map_loop createAttribute ps []))]))
      with ((0 <? length (map_loop createAttribute ps []))%nat
            && forallb (fun kv => well_formed (snd kv))
                 (map_loop createAttribute ps [])).
    rewrite L. simpl. now apply map_loop_forallb.
Qed.

(** X9: white space around a string does not show in its attribute. *)
Theorem createAttribute_trim s :
  createAttribute (VStr (JsString.trim s)) = createAttribute (VStr s).
Proof.
  unfold createAttribute. simpl. now rewrite trim_idempotent.
Qed.

(** X10: on a map, [object2Map] and [createAttribute] return the same
    attribute. *)
Theorem object2Map_createAttribute ps :
  object2Map (VObj ps) = Ok (createAttribute (VObj ps)).
Proof.
  rewrite createAttribute_object. reflexivity.
Qed.

(** X11: [object2Map] raises on [null] and on nothing else; what it
    returns is [{NULL: true}] or an [M] with at least one field, never
    another tag. *)
Theorem object2Map_result o :
  match object2Map o with
  | Throw _ => o = VNull
  | Ok a =>
      o <> VNull
      /\ (a = NULL_attribute
          \/ exists m, a = VObj [("M", VObj m)] /\ m <> [])
  end.
Proof.
  assert (H : forall m,
             map_or_null (createAttribute VNull) m = NULL_attribute
             \/ exists m', map_or_null (createAttribute VNull) m
                           = VObj [("M", VObj m')] /\ m' <> []).
  { intros m. unfold map_or_null. destruct m as [|p rest]; simpl.
    - now left.
    - right. exists (p :: rest). split; [reflexivity | discriminate]. }
  destruct o as [| |b|x|s|l|ps]; simpl; try (split; [discriminate|]);
    try (now left); try reflexivity; apply H.
Qed.

(** X12: a map with at least one field and distinct keys is encoded as
    an [M] with the same keys in the same order, each with the attribute
    of its field: no field is dropped, renamed or merged. *)
Theorem createAttribute_keeps_fields ps :
  ps <> [] -> NoDup (map fst ps) ->
  exists m,
    createAttribute (VObj ps) = VObj [("M", VObj m)]
    /\ map fst m = map fst ps
    /\ forall k v, Js.lookup k ps = Some v ->
                   Js.lookup k m = Some (createAttribute v).
Proof.
  intros Hne Hnd. exists (attributes_of ps). split; [|split].
  - now apply createAttribute_record.
  - unfold attributes_of. rewrite map_map. reflexivity.
  - intros k v H. unfold attributes_of. now apply lookup_map.
Qed.

Lemma createAttribute_keeps_fields_witness :
  exists m,
    createAttribute (VObj [("a", VStr ""); ("b", VBool false)])
    = VObj [("M", VObj m)]
    /\ map fst m = ["a"; "b"]
    /\ forall k v,
         Js.lookup k [("a", VStr ""); ("b", VBool false)] = Some v ->
         Js.lookup k m = Some (createAttribute v).
Proof.
  refine (createAttribute_keeps_fields
            [("a", VStr ""); ("b", VBool false)] _ _).
  - discriminate.
  - apply distinct_NoDup. reflexivity.
Defined.

(** X13: normalising with [objectOrNull] before encoding changes the
    attribute of [false] and of [0] only, which become [{NULL: true}];
    every other value is encoded as without it. *)
Theorem createAttribute_objectOrNull o :
  createAttribute (objectOrNull o)
  = match o with
    | VBool false | VNum (Int Z0) => NULL_attribute
    | _ => createAttribute o
    end.
Proof.
  destruct o as [| |[|]|[|neg|[|p|p]|neg s n]|[|c s]|l|ps]; reflexivity.
Qed.

(** X14: an attribute passes through [attributeOrNull] as it is, and
    whatever [attributeOrNull] returns is truthy. *)
Theorem attributeOrNull_attribute v a :
  attributeOrNull (createAttribute v) = createAttribute v
  /\ falsy (attributeOrNull a) = false.
Proof.
  split.
  - destruct (createAttribute_single_key v) as [code [x ->]]. reflexivity.
  - unfold attributeOrNull. destruct (falsy a) eqn:E; [reflexivity | exact E].
Qed.

(* ------------------------------------------------------------------ *)
(** ** Resolving a path in the attributes of a record *)

Lemma navigable_object ps :
  navigable (VObj ps) = true ->
  Js.lookup "hasOwnProperty" ps = None
  /\ NoDup (map fst ps)
  /\ forallb (fun kv => navigable (snd kv)) ps = true.
Proof.
  change (navigable (VObj ps))
    with (distinct ("hasOwnProperty" :: map fst ps)
          && forallb (fun kv => navigable (snd kv)) ps).
  intros H. apply andb_true_iff in H as [Hd Hall].
  apply distinct_NoDup in Hd. inversion Hd; subst.
  repeat split; auto. now apply lookup_not_In.
Qed.

Lemma navigable_list l :
  navigable (VArr l) = true ->
  (N.of_nat (length l) < 2 ^ 32)%N /\ forallb navigable l = true.
Proof.
  change (navigable (VArr l))
    with ((N.of_nat (length l) <? 2 ^ 32)%N && forallb navigable l).
  intros H. apply andb_true_iff in H as [Hlen Hall].
  split; [now apply N.ltb_lt | assumption].
Qed.

Lemma index_of_key_Some k i : Js.index_of_key k = Some i -> k = JsString.of_nat i.
Proof.
  unfold Js.index_of_key.
  destruct (NilZero.uint_of_string k) as [u|]; [|discriminate].
  destruct (String.eqb_spec (JsString.of_nat (N.to_nat (N.of_uint u))) k)
    as [E|_]; [|discriminate].
  intros [= <-]. now symmetry.
Qed.

Lemma navigable_child v t c :
  navigable v = true -> child_at v t = Some c -> navigable c = true.
Proof.
  intros Hv Hc. destruct v as [| |b|x|s|l|ps]; try discriminate.
  - simpl in Hc. destruct (Js.index_of_key t) as [i|]; [|discriminate].
    apply navigable_list in Hv as [_ Hall].
    apply (forallb_nth_error _ _ _ _ Hall Hc).
  - simpl in Hc. apply navigable_object in Hv as [_ [_ Hall]].
    apply lookup_Some_In in Hc. rewrite forallb_forall in Hall.
    apply (Hall _ Hc).
Qed.

(** From a token that leads to the attribute of [v], the walk along the
    tokens that reach [c] in [v] returns the attribute of [c]. *)
Lemma walk_reaches rest : forall v found t returnAttribute c,
  navigable v = true ->
  value_at v rest = Some c ->
  Js.hasOwnProperty found t = Ok true ->
  Js.get found t = Ok (createAttribute v) ->
  walk (t :: rest) found returnAttribute = Ok (createAttribute c).
Proof.
  induction rest as [|t' rest' IH]; intros v found t ret c Hv Hc Hown Hget.
  - injection Hc as <-.
    destruct (createAttribute_single_key v) as [code [x E]].
    rewrite E in Hget. rewrite (walk_owned _ _ _ _ _ _ Hown Hget).
    destruct (descend_last found code x) as [found' ->].
    rewrite E. reflexivity.
  - cbn [value_at] in Hc.
    destruct (child_at v t') as [c1|] eqn:E1; [|discriminate].
    pose proof (navigable_child _ _ _ Hv E1) as Hc1.
    destruct v as [| |b|x|s|l|ps]; try discriminate.
    + simpl in E1.
      destruct (Js.index_of_key t') as [i|] eqn:Ei; [|discriminate].
      apply index_of_key_Some in Ei. subst t'.
      apply navigable_list in Hv as [Hlen _].
      rewrite createAttribute_list in Hget.
      rewrite (walk_owned _ _ _ _ _ _ Hown Hget).
      assert (Hlt : i < length l) by (apply nth_error_Some; congruence).
      rewrite (descend_list _ _ _ _ Hlen Hlt).
      cbn [bind]. apply (IH c1); auto.
      * simpl. now rewrite (own_map_of_nat _ _ _ E1).
      * simpl. now rewrite (own_map_of_nat _ _ _ E1).
    + simpl in E1. apply navigable_object in Hv as [Hm [Hnd _]].
      assert (Hne : ps <> []) by (intros ->; discriminate).
      rewrite (createAttribute_record _ Hne Hnd) in Hget.
      rewrite (walk_owned _ _ _ _ _ _ Hown Hget).
      change (descend found (VObj [("M", VObj (attributes_of ps))]) "M"
                (t' :: rest'))
        with (Ok (VObj (attributes_of ps))).
      cbn [bind].
      destruct (attributes_own _ _ _ Hm E1) as [Ho Hg].
      now apply (IH c1).
Qed.

(** X15: encoding commutes with following a path.  In a record whose
    maps have distinct keys, none named [hasOwnProperty], the attribute
    found at a path in the attributes of the fields is the attribute of
    the value found at that path in the record. *)
Theorem getAttributeAtPath_createAttribute props path c :
  navigable (VObj props) = true ->
  record_at props path = Some c ->
  getAttributeAtPath (VObj (attributes_of props)) (VArr (map VStr path))
    VUndefined
  = Ok (createAttribute c).
Proof.
  intros Hv Hc. destruct path as [|k rest]; [discriminate|].
  simpl in Hc. destruct (Js.lookup k props) as [v|] eqn:Hl; [|discriminate].
  pose proof (navigable_child (VObj props) k v Hv Hl) as Hnv.
  apply navigable_object in Hv as [Hm _].
  destruct (attributes_own _ _ _ Hm Hl) as [Hown Hget].
  unfold getAttributeAtPath, localPath_of.
  rewrite all_strings_map_VStr, strings_of_map_VStr.
  cbv beta iota zeta. rewrite Hown.
  cbn [bind isObject Js.isObject andb negb orb].
  now apply (walk_reaches rest v).
Qed.

Lemma getAttributeAtPath_createAttribute_witness :
  getAttributeAtPath (VObj (attributes_of documented_record))
    (VArr (map VStr ["property3"; "property3_2"; "property3_2_1"; "morty";
                     "versions"; "5"]))
    VUndefined
  = Ok (createAttribute (documented_version "38q-27" false)).
Proof.
  apply getAttributeAtPath_createAttribute; reflexivity.
Defined.

(* ------------------------------------------------------------------ *)
(** ** The two notations of a path *)

Lemma append_assoc_char acc c t :
  ((acc ++ String c "") ++ t)%string = (acc ++ String c t)%string.
Proof. induction acc as [|a acc IH]; simpl; [reflexivity | now rewrite IH]. Qed.

Lemma prefix_dot c s : prefix "." (String c s) = Ascii.eqb c ".".
Proof.
  cbn [prefix]. destruct (ascii_dec "." c) as [<-|N].
  - destruct s; reflexivity.
  - symmetry. apply Ascii.eqb_neq. congruence.
Qed.

Lemma split_from_cons acc c s :
  JsString.split_from "." 0 acc (String c s)
  = if Ascii.eqb c "." then acc :: JsString.split_from "." 0 "" s
    else JsString.split_from "." 0 (acc ++ String c "") s.
Proof.
  cbn [JsString.split_from]. rewrite prefix_dot. reflexivity.
Qed.

Lemma split_from_token t : forall acc r,
  dot_free t = true ->
  JsString.split_from "." 0 acc (t ++ r)
  = JsString.split_from "." 0 (acc ++ t) r.
Proof.
  unfold dot_free.
  induction t as [|c t IH]; intros acc r H.
  - now rewrite append_empty_r.
  - cbn [list_ascii_of_string forallb] in H.
    apply andb_true_iff in H as [Hc Ht].
    apply negb_true_iff in Hc.
    change (String c t ++ r)%string with (String c (t ++ r)).
    rewrite split_from_cons, Hc, IH by assumption.
    now rewrite append_assoc_char.
Qed.

(** Splitting at the dots gives back the tokens that were joined with
    dots. *)
Lemma split_join path :
  path <> [] -> forallb dot_free path = true ->
  JsString.split (JsString.join "." path) "." = path.
Proof.
  intros Hne H. unfold JsString.split, JsString.join.
  change (JsString.split_from "." 0 "" (String.concat "." path) = path).
  assert (G : forall acc,
             JsString.split_from "." 0 acc (String.concat "." path)
             = match path with
               | [] => [acc]
               | t :: rest => (acc ++ t)%string :: rest
               end).
  { clear Hne. induction path as [|t rest IH]; intros acc; [reflexivity|].
    simpl in H. apply andb_true_iff in H as [Ht Hrest].
    destruct rest as [|t2 rest'].
    - simpl. rewrite <- (append_empty_r t) at 1.
      rewrite split_from_token by assumption. reflexivity.
    - change (String.concat "." (t :: t2 :: rest'))
        with (t ++ String "." (String.concat "." (t2 :: rest')))%string.
      rewrite split_from_token by assumption.
      rewrite split_from_cons. change (Ascii.eqb "." ".") with true.
      cbv iota. f_equal. apply (IH Hrest ""). }
  rewrite G. destruct path; [congruence | reflexivity].
Qed.

(** X16: a path written as a string of tokens joined with dots is
    resolved as the array of its tokens, when no token holds a dot. *)
Theorem getAttributeAtPath_notations item path :
  path <> [] -> forallb dot_free path = true ->
  getAttributeAtPath item (VStr (JsString.join "." path)) VUndefined
  = getAttributeAtPath item (VArr (map VStr path)) VUndefined
  /\ hasPropertyAtPath item (VStr (JsString.join "." path)) VUndefined
     = hasPropertyAtPath item (VArr (map VStr path)) VUndefined.
Proof.
  intros Hne H. split.
  - unfold getAttributeAtPath, localPath_of. cbn [default_delimiter].
    rewrite (split_join path Hne H).
    now rewrite all_strings_map_VStr, strings_of_map_VStr.
  - unfold hasPropertyAtPath. cbn [default_delimiter].
    now rewrite (split_join path Hne H).
Qed.

Lemma getAttributeAtPath_notations_witness :
  getAttributeAtPath (VObj (attributes_of documented_record))
    (VStr "property3.property3_3") VUndefined
  = getAttributeAtPath (VObj (attributes_of documented_record))
      (VArr [VStr "property3"; VStr "property3_3"]) VUndefined.
Proof.
  refine (proj1 (getAttributeAtPath_notations
                   (VObj (attributes_of documented_record))
                   ["property3"; "property3_3"] _ _)).
  - discriminate.
  - reflexivity.
Defined.

(* ------------------------------------------------------------------ *)
(** ** The index and the values of a record *)

Lemma In_steps_from_nth l : forall i0 j child,
  nth_error l j = Some child ->
  In (VObj [(JsString.of_nat (i0 + j), VArr (steps_of child))])
    (steps_from l i0).
Proof.
  induction l as [|p rest IH]; intros i0 j child H.
  - destruct j; discriminate.
  - destruct j as [|j]; simpl in *.
    + injection H as ->. left. now rewrite Nat.add_0_r.
    + right. rewrite <- Nat.add_succ_comm. now apply IH.
Qed.

Lemma In_steps_of_child v t c :
  child_at v t = Some c ->
  In (VObj [(t, VArr (steps_of c))]) (steps_of v).
Proof.
  intros H. destruct v as [| |b|x|s|l|ps]; try discriminate.
  - simpl in H. destruct (Js.index_of_key t) as [i|] eqn:Ei; [|discriminate].
    apply index_of_key_Some in Ei. subst t.
    rewrite steps_of_list. apply (In_steps_from_nth l 0 i c H).
  - simpl in H. apply lookup_Some_In in H. simpl.
    apply in_map_iff. now exists (t, c).
Qed.

Lemma indexable_child v t c :
  indexable v = true -> child_at v t = Some c -> indexable c = true.
Proof.
  intros Hv Hc. destruct v as [| |b|x|s|l|ps]; try discriminate.
  - simpl in Hc. destruct (Js.index_of_key t) as [i|]; [|discriminate].
    apply indexable_list in Hv as [_ Hall].
    pose proof (forallb_nth_error _ _ _ _ Hall Hc) as H.
    now apply andb_true_iff in H as [_ H].
  - simpl in Hc. apply indexable_object in Hv as [_ [_ Hall]].
    apply lookup_Some_In in Hc. rewrite forallb_forall in Hall.
    apply (Hall _ Hc).
Qed.

(** The steps under a value lead exactly to the values under it. *)
Lemma in_steps_value_at rest : forall v,
  indexable v = true ->
  (in_steps (steps_of v) rest = true <-> exists c, value_at v rest = Some c).
Proof.
  induction rest as [|t rest IH]; intros v Hv.
  - split; [intros _; now exists v | reflexivity].
  - split.
    + intros H.
      destruct (in_steps_child _ _ _ Hv H)
        as [child [Hc [Hr [[ps [-> [_ [_ [_ Hl]]]]]
                          | [l [i [-> [_ [-> Hi]]]]]]]]].
      * apply (IH _ Hc) in Hr as [c Hr]. exists c.
        cbn [value_at child_at]. now rewrite Hl.
      * apply (IH _ Hc) in Hr as [c Hr]. exists c.
        cbn [value_at child_at]. now rewrite index_of_key_of_nat, Hi.
    + intros [c H]. cbn [value_at] in H.
      destruct (child_at v t) as [c1|] eqn:E; [|discriminate].
      assert (Hr : in_steps (steps_of c1) rest = true).
      { apply IH; [now apply (indexable_child v t) | now exists c]. }
      cbn [in_steps]. apply existsb_exists.
      exists (VObj [(t, VArr (steps_of c1))]).
      split; [now apply In_steps_of_child|].
      simpl. now rewrite String.eqb_refl.
Qed.

Lemma lookup_index_of k props :
  Js.lookup k (index_of props)
  = option_map (fun v => VArr (steps_of v)) (Js.lookup k props).
Proof.
  induction props as [|[k' v] rest IH]; simpl; [reflexivity|].
  destruct (String.eqb k k'); [reflexivity | exact IH].
Qed.

(** X17: with enough fuel, [getPropertyPaths] returns the index that
    mirrors the record: its keys are the keys of the record in their
    order; under a scalar there is no step, under a list one step per
    element, named by its decimal index, under a map one step per field,
    named by its key; each step holds the steps under its value.  More
    fuel gives the same index. *)
Theorem getPropertyPaths_mirrors_record props :
  indexable (VObj props) = true ->
  exists fuel, forall fuel',
    fuel <= fuel' ->
    getPropertyPaths fuel' (VObj props) = Some (Ok (VObj (index_of props))).
Proof.
  intros Hv. exists (S (depth (VObj props))). intros fuel' Hle.
  apply getPropertyPaths_record; [lia | assumption].
Qed.

Lemma getPropertyPaths_mirrors_record_witness :
  exists fuel, forall fuel',
    fuel <= fuel' ->
    getPropertyPaths fuel' (VObj documented_record)
    = Some (Ok (VObj (index_of documented_record))).
Proof.
  apply (getPropertyPaths_mirrors_record documented_record). reflexivity.
Defined.

(** X18: the index has the paths of the record and no others: a path is
    present in the index [getPropertyPaths] returns exactly when
    following it in the record reaches a value. *)
Theorem path_in_index_iff_record_at props fuel idx path :
  indexable (VObj props) = true ->
  getPropertyPaths fuel (VObj props) = Some (Ok idx) ->
  (path_in_index idx path = true <-> exists c, record_at props path = Some c).
Proof.
  intros Hv Hf.
  pose proof (getPropertyPaths_record (S (depth (VObj props))) props
                (Nat.lt_succ_diag_r _) Hv) as Hidx.
  pose proof (getPropertyPaths_deterministic _ _ _ _ _ Hf Hidx) as E.
  injection E as ->.
  destruct path as [|k rest].
  - split; [discriminate | intros [c H]; discriminate].
  - cbn [path_in_index record_at]. rewrite lookup_index_of.
    destruct (Js.lookup k props) as [v|] eqn:Hl; simpl.
    + apply in_steps_value_at.
      apply (indexable_child (VObj props) k v Hv Hl).
    + split; [discriminate | intros [c H]; discriminate].
Qed.

Lemma path_in_index_iff_record_at_witness :
  path_in_index (VObj (index_of documented_record)) documented_path = true
  <-> exists c, record_at documented_record documented_path = Some c.
Proof.
  apply (path_in_index_iff_record_at documented_record 10); reflexivity.
Defined.

(* ------------------------------------------------------------------ *)
(** ** Resolving a path in the index *)

Lemma of_nat_not_hasOwnProperty i :
  String.eqb "hasOwnProperty" (JsString.of_nat i) = false.
Proof.
  pose proof (digit_string_of_nat i) as Hd.
  pose proof (of_nat_not_empty i) as Hne.
  destruct (JsString.of_nat i) as [|c r]; [congruence|].
  unfold digit_string in Hd. simpl in Hd.
  apply andb_true_iff in Hd as [Hc _]. digit_cases Hc; reflexivity.
Qed.

(** [e.hasOwnProperty(t)] on a step of the index. *)
Lemma hasOwnProperty_step k x t :
  String.eqb "hasOwnProperty" k = false ->
  Js.hasOwnProperty (VObj [(k, x)]) t = Ok (String.eqb t k).
Proof.
  intros H. unfold Js.hasOwnProperty. cbn [Js.lookup]. rewrite H.
  cbn [Js.is_some]. destruct (String.eqb t k); reflexivity.
Qed.

Lemma find_step_fields t ps :
  Js.lookup "hasOwnProperty" ps = None ->
  find_step (map (fun kv => VObj [(fst kv, VArr (steps_of (snd kv)))]) ps) t
  = Ok (option_map (fun c => VObj [(t, VArr (steps_of c))]) (Js.lookup t ps)).
Proof.
  induction ps as [|[k v] rest IH]; intros Hm; [reflexivity|].
  cbn [map find_step fst snd Js.lookup] in *.
  destruct (String.eqb "hasOwnProperty" k) eqn:Ek; [discriminate|].
  rewrite (hasOwnProperty_step _ _ _ Ek). cbn [bind].
  destruct (String.eqb_spec t k) as [->|_]; [reflexivity | now apply IH].
Qed.

Lemma find_step_elements t l : forall i0,
  find_step (steps_from l i0) t
  = Ok (match Js.index_of_key t with
        | Some i =>
            if (i0 <=? i)%nat
            then option_map (fun c => VObj [(t, VArr (steps_of c))])
                   (nth_error l (i - i0))
            else None
        | None => None
        end).
Proof.
  induction l as [|p rest IH]; intros i0.
  - cbn [steps_from find_step]. destruct (Js.index_of_key t) as [i|]; [|reflexivity].
    destruct (i0 <=? i)%nat; [|reflexivity]. now destruct (i - i0).
  - cbn [steps_from find_step].
    rewrite (hasOwnProperty_step _ _ _ (of_nat_not_hasOwnProperty i0)).
    cbn [bind].
    destruct (String.eqb_spec t (JsString.of_nat i0)) as [->|Hne].
    + rewrite index_of_key_of_nat, Nat.leb_refl, Nat.sub_diag. reflexivity.
    + rewrite IH. destruct (Js.index_of_key t) as [i|] eqn:Ei; [|reflexivity].
      apply index_of_key_Some in Ei. subst t.
      assert (Hi : i <> i0) by congruence.
      destruct (Nat.leb_spec (S i0) i), (Nat.leb_spec i0 i); try lia;
        [|reflexivity].
      replace (i - i0) with (S (i - S i0)) by lia. reflexivity.
Qed.

(** The step of the index that owns a token is the step for the field
    or the element the token names. *)
Lemma find_steps_of v t :
  indexable v = true ->
  find (VArr (steps_of v)) t
  = Ok (option_map (fun c => VObj [(t, VArr (steps_of c))]) (child_at v t)).
Proof.
  intros Hv. unfold find. destruct v as [| |b|x|s|l|ps]; try reflexivity.
  - rewrite steps_of_list, find_step_elements. cbn [child_at].
    destruct (Js.index_of_key t) as [i|]; [|reflexivity].
    now rewrite Nat.sub_0_r.
  - apply indexable_object in Hv as [Hm _]. now apply find_step_fields.
Qed.

Lemma child_not_hasOwnProperty v t c :
  indexable v = true -> child_at v t = Some c ->
  String.eqb "hasOwnProperty" t = false.
Proof.
  intros Hv Hc. destruct v as [| |b|x|s|l|ps]; try discriminate.
  - simpl in Hc. destruct (Js.index_of_key t) as [i|] eqn:Ei; [|discriminate].
    apply index_of_key_Some in Ei. subst t. apply of_nat_not_hasOwnProperty.
  - simpl in Hc. apply indexable_object in Hv as [Hm _].
    destruct (String.eqb_spec "hasOwnProperty" t) as [<-|_]; congruence.
Qed.

Lemma toArrayPath_step_steps v t :
  indexable v = true ->
  toArrayPath_step (VArr (steps_of v)) t
  = Ok (match child_at v t with
        | Some c => VArr (steps_of c)
        | None => VNull
        end).
Proof.
  intros Hv. unfold toArrayPath_step. rewrite (find_steps_of v t Hv).
  destruct (child_at v t) as [c|] eqn:E; [|reflexivity].
  cbn [option_map bind Conv.truthy falsy negb].
  rewrite (hasOwnProperty_step _ _ _ (child_not_hasOwnProperty v t c Hv E)).
  rewrite String.eqb_refl. cbn [bind Js.get Js.lookup].
  now rewrite String.eqb_refl.
Qed.

Lemma reduce_tokens_null step rest :
  (forall t, step VNull t = Ok VNull) ->
  reduce_tokens step rest VNull = Ok VNull.
Proof.
  intros H. induction rest as [|t rest IH]; [reflexivity|].
  cbn [reduce_tokens]. rewrite H. exact IH.
Qed.

Lemma reduce_toArrayPath rest : forall v,
  indexable v = true ->
  reduce_tokens toArrayPath_step rest (VArr (steps_of v))
  = Ok (match value_at v rest with
        | Some c => VArr (steps_of c)
        | None => VNull
        end).
Proof.
  induction rest as [|t rest IH]; intros v Hv; [reflexivity|].
  cbn [reduce_tokens value_at]. rewrite (toArrayPath_step_steps v t Hv).
  cbn [bind]. destruct (child_at v t) as [c|] eqn:E.
  - apply IH. apply (indexable_child v t c Hv E).
  - now apply reduce_tokens_null.
Qed.

(** X19: against the index of a record, [toArrayPath] returns the tokens
    of a dotted path exactly when following them in the record reaches a
    value, and [undefined] otherwise. *)
Theorem toArrayPath_index props fuel idx path :
  indexable (VObj props) = true ->
  getPropertyPaths fuel (VObj props) = Some (Ok idx) ->
  path <> [] -> forallb dot_free path = true ->
  toArrayPath idx (VStr (JsString.join "." path)) VUndefined
  = match record_at props path with
    | Some _ => Ok (VArr (map VStr path))
    | None => Ok VUndefined
    end.
Proof.
  intros Hv Hf Hne Hd.
  pose proof (getPropertyPaths_record (S (depth (VObj props))) props
                (Nat.lt_succ_diag_r _) Hv) as Hidx.
  pose proof (getPropertyPaths_deterministic _ _ _ _ _ Hf Hidx) as E.
  injection E as ->.
  unfold toArrayPath, split_value. cbn [default_delimiter Conv.toStr].
  rewrite (split_join path Hne Hd). cbn [bind isObject Js.isObject andb].
  destruct path as [|k rest]; [congruence|].
  cbn [map nth Conv.toStr record_at].
  destruct (indexable_object _ Hv) as [Hm _].
  unfold Js.hasOwnProperty, Js.get. rewrite !lookup_index_of, Hm.
  cbn [option_map Js.is_some].
  destruct (Js.lookup k props) as [v|] eqn:Hl; [|reflexivity].
  cbn [option_map Js.is_some bind reduce].
  rewrite (reduce_toArrayPath rest v (indexable_child (VObj props) k v Hv Hl)).
  cbn [bind]. destruct (value_at v rest); reflexivity.
Qed.

Lemma toArrayPath_index_witness :
  toArrayPath (VObj (index_of documented_record))
    (VStr (JsString.join "." documented_path)) VUndefined
  = Ok (VArr (map VStr documented_path)).
Proof.
  refine (toArrayPath_index documented_record 10 _ documented_path _ _ _ _);
    try reflexivity.
  discriminate.
Defined.

Lemma steps_of_leaf c : is_leaf c = true -> steps_of c = [].
Proof. destruct c as [| |b|x|s|[|e l]|[|p ps]]; try reflexivity; discriminate. Qed.

Lemma steps_of_not_leaf c :
  is_leaf c = false -> exists s rest, steps_of c = s :: rest.
Proof.
  destruct c as [| |b|x|s|[|e l]|[|p ps]]; try discriminate; intros _.
  - rewrite steps_of_list. simpl. eauto.
  - simpl. eauto.
Qed.

Lemma child_at_not_leaf v t c : child_at v t = Some c -> is_leaf v = false.
Proof.
  destruct v as [| |b|x|s|[|e l]|[|p ps]]; try discriminate; try reflexivity.
  simpl. destruct (Js.index_of_key t) as [[|i]|]; discriminate.
Qed.

(** One call of the reducer of [toStringPath] on the steps of a value:
    it raises when the token names nothing, and drops to [null] when the
    token names a leaf. *)
Lemma toStringPath_step_steps v t :
  indexable v = true ->
  toStringPath_step (VArr (steps_of v)) t
  = match child_at v t with
    | Some c => Ok (if is_leaf c then VNull else VArr (steps_of c))
    | None => Throw TypeError
    end.
Proof.
  intros Hv. unfold toStringPath_step. rewrite (find_steps_of v t Hv).
  destruct (child_at v t) as [c|] eqn:E; [|reflexivity].
  cbn [option_map bind Conv.truthy falsy negb Js.get Js.lookup].
  rewrite String.eqb_refl. cbn [bind isArray Js.isArray andb].
  destruct (is_leaf c) eqn:L.
  - rewrite (steps_of_leaf c L). reflexivity.
  - destruct (steps_of_not_leaf c L) as [s [rest ->]]. reflexivity.
Qed.

Lemma toStringPath_step_null t : toStringPath_step VNull t = Ok VNull.
Proof. reflexivity. Qed.

Lemma reduce_toStringPath rest : forall v c,
  indexable v = true ->
  rest <> [] ->
  value_at v rest = Some c ->
  reduce_tokens toStringPath_step rest (VArr (steps_of v))
  = Ok (if is_leaf c then VNull else VArr (steps_of c)).
Proof.
  induction rest as [|t rest IH]; intros v c Hv Hne Hc; [congruence|].
  cbn [reduce_tokens value_at] in *.
  rewrite (toStringPath_step_steps v t Hv).
  destruct (child_at v t) as [c1|] eqn:E; [|discriminate].
  cbn [bind]. destruct rest as [|t2 rest'].
  - injection Hc as <-. reflexivity.
  - assert (L : is_leaf c1 = false).
    { cbn [value_at] in Hc.
      destruct (child_at c1 t2) as [c2|] eqn:E2; [|discriminate].
      apply (child_at_not_leaf c1 t2 c2 E2). }
    rewrite L. apply IH; [|discriminate|assumption].
    apply (indexable_child v t c1 Hv E).
Qed.

(** X20: against the index of a record, [toStringPath] joins a path of
    two or more tokens only when the value the path reaches has
    something under it; for a path that ends at a scalar, an empty list
    or an empty map it returns [undefined]. *)
Theorem toStringPath_index props fuel idx k t rest c :
  indexable (VObj props) = true ->
  getPropertyPaths fuel (VObj props) = Some (Ok idx) ->
  record_at props (k :: t :: rest) = Some c ->
  toStringPath idx (VArr (map VStr (k :: t :: rest))) VUndefined
  = if is_leaf c then Ok VUndefined
    else Ok (VStr (JsString.join "." (k :: t :: rest))).
Proof.
  intros Hv Hf Hc.
  pose proof (getPropertyPaths_record (S (depth (VObj props))) props
                (Nat.lt_succ_diag_r _) Hv) as Hidx.
  pose proof (getPropertyPaths_deterministic _ _ _ _ _ Hf Hidx) as E.
  injection E as ->.
  unfold toStringPath. cbn [default_delimiter Conv.toStr].
  rewrite all_strings_map_VStr, strings_of_map_VStr.
  cbn [isObject Js.isObject andb map nth Conv.toStr].
  destruct (indexable_object _ Hv) as [Hm _].
  unfold Js.hasOwnProperty, Js.get. rewrite !lookup_index_of, Hm.
  cbn [record_at] in Hc.
  destruct (Js.lookup k props) as [v|] eqn:Hl; [|discriminate].
  cbn [option_map Js.is_some bind reduce].
  rewrite (reduce_toStringPath (t :: rest) v c
             (indexable_child (VObj props) k v Hv Hl)
             ltac:(discriminate) Hc).
  cbn [bind]. destruct (is_leaf c); reflexivity.
Qed.

Lemma toStringPath_index_witness :
  toStringPath (VObj (index_of documented_record))
    (VArr (map VStr documented_path)) VUndefined = Ok VUndefined
  /\ toStringPath (VObj (index_of documented_record))
       (VArr (map VStr ["property3"; "property3_2"])) VUndefined
     = Ok (VStr "property3.property3_2").
Proof.
  split.
  - refine (toStringPath_index documented_record 10 _ "property3"
              "property3_2"
              ["property3_2_1"; "morty"; "versions"; "0"; "universe"]
              (VStr "31c-12") _ _ _); reflexivity.
  - pose proof (fun c H =>
                  toStringPath_index documented_record 10 _ "property3"
                    "property3_2" [] c eq_refl eq_refl H) as T.
    specialize (T _ eq_refl). exact T.
Defined.



(* ------------------------------------------------------------------ *)
(** ** Existence of a property at a path *)

Lemma each_token_local item l : forall propertyFound,
  (fix each (rest : list value) (propertyFound : bool) {struct rest}
     : result bool :=
     match rest with
     | [] => Ok propertyFound
     | p :: slice =>
         owned <- Js.hasOwnProperty item (Conv.toStr p) ;;
         if (owned : bool) then
           child <- Js.get item (Conv.toStr p) ;;
           found <- hasPropertyAtPath_array child slice ;;
           each slice found
         else each slice propertyFound
     end) l propertyFound
  = each_token item l propertyFound.
Proof.
  induction l as [|p slice IH]; intros found; [reflexivity|].
  cbn [each_token].
  destruct (Js.hasOwnProperty item (Conv.toStr p)) as [[|]|]; cbn [bind];
    [|apply IH|reflexivity].
  destruct (Js.get item (Conv.toStr p)) as [child|]; cbn [bind];
    [|reflexivity].
  destruct (hasPropertyAtPath_array child slice); cbn [bind];
    [apply IH | reflexivity].
Qed.

Lemma hasPropertyAtPath_array_loop item path :
  hasPropertyAtPath_array item path
  = match path with
    | [p] => Js.hasOwnProperty item (Conv.toStr p)
    | _ => each_token item path false
    end.
Proof.
  destruct path as [|p [|q r]]; try reflexivity.
  rewrite <- each_token_local. reflexivity.
Qed.

Lemma each_token_cons item p slice propertyFound :
  each_token item (p :: slice) propertyFound
  = (owned <- Js.hasOwnProperty item (Conv.toStr p) ;;
     if (owned : bool) then
       child <- Js.get item (Conv.toStr p) ;;
       found <- hasPropertyAtPath_array child slice ;;
       each_token item slice found
     else each_token item slice propertyFound).
Proof. reflexivity. Qed.

Lemma each_token_unowned item rest : forall found,
  forallb (fun u => match Js.hasOwnProperty item u with
                    | Ok false => true
                    | _ => false
                    end) rest = true ->
  each_token item (map VStr rest) found = Ok found.
Proof.
  induction rest as [|u rest IH]; intros found H; [reflexivity|].
  cbn [forallb] in H. apply andb_true_iff in H as [Hu Hrest].
  cbn [map]. rewrite each_token_cons. cbn [Conv.toStr].
  destruct (Js.hasOwnProperty item u) as [[|]|]; try discriminate.
  cbn [bind]. now apply IH.
Qed.

Lemma get_after_hasOwnProperty item t b :
  Js.hasOwnProperty item t = Ok b -> exists child, Js.get item t = Ok child.
Proof.
  destruct item; simpl; try discriminate; eauto.
Qed.

Lemma hasPropertyAtPath_array_clash_free path : forall item,
  path <> [] -> clash_free item path = true ->
  hasPropertyAtPath_array item (map VStr path) = Ok (owns_path item path).
Proof.
  induction path as [|t rest IH]; intros item Hne H; [congruence|].
  cbn [clash_free] in H.
  destruct (Js.hasOwnProperty item t) as [owned|] eqn:Ho; [|discriminate].
  apply andb_true_iff in H as [Hrest Hchild].
  destruct (get_after_hasOwnProperty item t owned Ho) as [child Hg].
  rewrite hasPropertyAtPath_array_loop. cbn [owns_path]. rewrite Ho, Hg.
  destruct rest as [|t2 rest'].
  - cbn [map Conv.toStr]. rewrite Ho. destruct owned; reflexivity.
  - change (map VStr (t :: t2 :: rest'))
      with (VStr t :: map VStr (t2 :: rest')).
    rewrite each_token_cons. cbn [Conv.toStr]. rewrite Ho. cbn [bind].
    destruct owned.
    + rewrite Hg in *. cbn [bind].
      rewrite (IH child) by (auto; discriminate). cbn [bind].
      now apply each_token_unowned.
    + now apply each_token_unowned.
Qed.

(** X22: [hasPropertyAtPath] decides whether the tokens name a property
    at each step of the descent whenever no token but the first of what
    remains names a property of the value it is tested against, and the
    values on the way are not [null] or [undefined]. *)
Theorem hasPropertyAtPath_clash_free item path delimiter :
  path <> [] -> clash_free item path = true ->
  hasPropertyAtPath item (VArr (map VStr path)) delimiter
  = Ok (VBool (owns_path item path)).
Proof.
  intros Hne H. unfold hasPropertyAtPath.
  destruct (default_delimiter delimiter);
    now rewrite (hasPropertyAtPath_array_clash_free path item Hne H).
Qed.

Lemma hasPropertyAtPath_clash_free_witness :
  hasPropertyAtPath (VObj documented_record)
    (VArr (map VStr ["property3"; "property3_2"; "property3_2_1"; "pickle"]))
    VUndefined
  = Ok (VBool true)
  /\ hasPropertyAtPath (VObj documented_record)
       (VArr (map VStr ["property3"; "property3_4"; "pickle"])) VUndefined
     = Ok (VBool false).
Proof.
  split.
  - refine (hasPropertyAtPath_clash_free (VObj documented_record)
              ["property3"; "property3_2"; "property3_2_1"; "pickle"]
              VUndefined _ _); [discriminate | reflexivity].
  - refine (hasPropertyAtPath_clash_free (VObj documented_record)
              ["property3"; "property3_4"; "pickle"]
              VUndefined _ _); [discriminate | reflexivity].
Defined.

(* ------------------------------------------------------------------ *)
(** ** Properties of objects *)

Lemma lookup_defineProperty o k v k' :
  Js.lookup k' (Js.defineProperty o k v)
  = if String.eqb k' k then Some v else Js.lookup k' o.
Proof.
  induction o as [|[k0 v0] rest IH]; simpl.
  - reflexivity.
  - destruct (String.eqb_spec k k0) as [->|Hne]; simpl.
    + destruct (String.eqb k' k0); reflexivity.
    + rewrite IH. destruct (String.eqb_spec k' k0) as [->|_]; [|reflexivity].
      destruct (String.eqb_spec k0 k) as [->|_]; [congruence | reflexivity].
Qed.

Lemma keys_defineProperty o k v :
  map fst (Js.defineProperty o k v)
  = if existsb (String.eqb k) (map fst o) then map fst o
    else (map fst o ++ [k])%list.
Proof.
  induction o as [|[k0 v0] rest IH]; simpl; [reflexivity|].
  destruct (String.eqb k k0) eqn:E; simpl.
  - apply String.eqb_eq in E. now subst.
  - rewrite IH. now destruct (existsb (String.eqb k) (map fst rest)).
Qed.

(** X23: [addObjectProperty] sets the key to the value and leaves every
    other key as it was; on an object with distinct keys the keys stay
    distinct and an existing key keeps its place; a new key that is not
    an integer index comes last. *)
Theorem addObjectProperty_lookup object key v :
  NoDup (map fst object) ->
  NoDup (map fst (addObjectProperty object key v))
  /\ (forall k, Js.lookup k (addObjectProperty object key v)
                = if String.eqb k key then Some v else Js.lookup k object)
  /\ (In key (map fst object) ->
      map fst (addObjectProperty object key v) = map fst object)
  /\ (~ In key (map fst object) -> Js.index_of_key key = None ->
      map fst (addObjectProperty object key v)
      = (map fst object ++ [key])%list).
Proof.
  intros Hnd. unfold addObjectProperty. split; [|split; [|split]].
  - rewrite keys_defineProperty.
    destruct (existsb (String.eqb key) (map fst object)) eqn:E; [assumption|].
    apply NoDup_app; [assumption | repeat constructor; intros [] |].
    intros x Hx [<-|[]]. apply existsb_eqb_In in Hx. congruence.
  - intros k. apply lookup_defineProperty.
  - intros Hin. rewrite keys_defineProperty.
    apply existsb_eqb_In in Hin. now rewrite Hin.
  - intros Hnin _. rewrite keys_defineProperty.
    destruct (existsb (String.eqb key) (map fst object)) eqn:E; [|reflexivity].
    apply existsb_eqb_In in E. contradiction.
Qed.

Lemma addObjectProperty_lookup_witness :
  Js.lookup "b" (addObjectProperty [("a", VNull); ("b", VNull)] "b" (VBool true))
  = Some (VBool true).
Proof.
  refine (proj1 (proj2 (addObjectProperty_lookup
                          [("a", VNull); ("b", VNull)] "b" (VBool true) _))
            "b").
  apply distinct_NoDup. reflexivity.
Defined.

(* ------------------------------------------------------------------ *)
(** ** Byte counts *)

Lemma utf8_length_bounds s :
  String.length s <= JsString.utf8_length s
  /\ (JsString.utf8_length s = String.length s <-> ascii_only s = true).
Proof.
  unfold ascii_only. induction s as [|c s [IH1 IH2]]; simpl.
  - split; [lia | tauto].
  - unfold JsString.utf8_width.
    destruct (nat_of_ascii c <? 128)%nat; simpl.
    + split; [lia|]. rewrite <- IH2. lia.
    + split; [lia|]. split; [lia | discriminate].
Qed.

(** X24: the byte count of a string is at least its length, and is its
    length exactly when all its characters are below U+0080; anything
    that is not a string has no byte count. *)
Theorem byteCount_length v :
  match byteCount v with
  | Some n =>
      exists s, v = VStr s /\ String.length s <= n
                /\ (n = String.length s <-> ascii_only s = true)
  | None => forall s, v <> VStr s
  end.
Proof.
  destruct v as [| |b|x|s|l|ps]; simpl; try (intros s'; discriminate).
  exists s. split; [reflexivity|]. apply utf8_length_bounds.
Qed.

(* ------------------------------------------------------------------ *)
(** ** Batch writes *)

Lemma defineProperty_same o k v :
  Js.lookup k o = Some v -> Js.defineProperty o k v = o.
Proof.
  induction o as [|[k0 v0] rest IH]; simpl; [discriminate|].
  destruct (String.eqb_spec k k0) as [->|_].
  - now intros [= ->].
  - intros H. now rewrite IH.
Qed.

(** X25: on an object that does not hide [hasOwnProperty], the callback
    of the page keeps the [version] the object has or sets it to 1, sets
    the [id] to the [name] ([undefined] without one), changes no other
    field, and changes nothing more when it runs again on its result. *)
Theorem prepare_fields p :
  Js.lookup "hasOwnProperty" p = None ->
  exists p',
    prepare p = Ok p'
    /\ Js.lookup "version" p'
       = Some (match Js.lookup "version" p with
               | Some v => v
               | None => VNum (Int 1)
               end)
    /\ Js.lookup "id" p'
       = Some (match Js.lookup "name" p with
               | Some n => n
               | None => VUndefined
               end)
    /\ (forall k, k <> "id" -> k <> "version" ->
                  Js.lookup k p' = Js.lookup k p)
    /\ prepare p' = Ok p'.
Proof.
  intros Hm. unfold prepare at 1. unfold Js.hasOwnProperty, Js.get.
  rewrite Hm. cbn [Js.is_some bind].
  set (p1 := if Js.is_some (Js.lookup "version" p) then p
             else Js.defineProperty p "version" (VNum (Int 1))).
  assert (H1 : forall k, Js.lookup k p1
                         = if String.eqb k "version"
                           then Some (match Js.lookup "version" p with
                                      | Some v => v
                                      | None => VNum (Int 1)
                                      end)
                           else Js.lookup k p).
  { intros k. unfold p1.
    destruct (Js.lookup "version" p) as [v|] eqn:E; cbn [Js.is_some].
    - destruct (String.eqb_spec k "version") as [->|_]; [exact E | reflexivity].
    - apply lookup_defineProperty. }
  set (name := match Js.lookup "name" p1 with
               | Some x => x
               | None => VUndefined
               end).
  assert (Hname : name = match Js.lookup "name" p with
                         | Some n => n
                         | None => VUndefined
                         end).
  { unfold name. now rewrite (H1 "name"). }
  exists (Js.defineProperty p1 "id" name).
  assert (H2 : forall k, Js.lookup k (Js.defineProperty p1 "id" name)
                         = if String.eqb k "id" then Some name
                           else Js.lookup k p1)
    by (intros k; apply lookup_defineProperty).
  split; [reflexivity|]. split; [|split; [|split]].
  - rewrite H2, H1. reflexivity.
  - rewrite H2, <- Hname. reflexivity.
  - intros k Hid Hv. rewrite H2, H1.
    destruct (String.eqb_spec k "id"); [congruence|].
    destruct (String.eqb_spec k "version"); [congruence | reflexivity].
  - unfold prepare, Js.hasOwnProperty, Js.get.
    rewrite !H2, !H1, Hm. cbn [String.eqb Ascii.eqb Bool.eqb Js.is_some bind].
    rewrite H2, H1. cbn [String.eqb Ascii.eqb Bool.eqb].
    fold name. rewrite <- Hname.
    rewrite defineProperty_same; [reflexivity|].
    rewrite H2. reflexivity.
Qed.

Lemma prepare_fields_witness :
  exists p',
    prepare [("name", VStr "Kepler-22b")] = Ok p'
    /\ Js.lookup "version" p' = Some (VNum (Int 1))
    /\ Js.lookup "id" p' = Some (VStr "Kepler-22b").
Proof.
  destruct (prepare_fields [("name", VStr "Kepler-22b")] eq_refl)
    as [p' [H1 [H2 [H3 _]]]].
  exists p'. auto.
Defined.

Lemma map_result_Forall2 {A B} (f : A -> result B) l rs :
  Forall2 (fun x r => f x = Ok r) l rs -> map_result f l = Ok rs.
Proof.
  induction 1 as [|x r l rs Hx _ IH]; simpl; [reflexivity|].
  now rewrite Hx, IH.
Qed.

Lemma Forall2_skipn {A B} (R : A -> B -> Prop) n : forall l rs,
  Forall2 R l rs -> Forall2 R (skipn n l) (skipn n rs).
Proof.
  induction n as [|n IH]; intros l rs H; [assumption|].
  destruct H; simpl; [constructor | now apply IH].
Qed.

Lemma Forall2_firstn {A B} (R : A -> B -> Prop) n : forall l rs,
  Forall2 R l rs -> Forall2 R (firstn n l) (firstn n rs).
Proof.
  induction n as [|n IH]; intros l rs H; [constructor|].
  destruct H; simpl; constructor; auto.
Qed.

Lemma map_result_slice items requests start finish :
  Forall2 (fun p r => put_request p = Ok r) items requests ->
  map_result put_request (slice items start finish)
  = Ok (slice requests start finish).
Proof.
  intros H. apply map_result_Forall2. unfold slice.
  now apply Forall2_firstn, Forall2_skipn.
Qed.

Lemma insertMultiObject_S f stringify batchWrite table requestItems
  startIndex step :
  insertMultiObject (S f) stringify batchWrite table requestItems
    startIndex step
  = let endIndex :=
      if (length requestItems <=? startIndex + step)%nat
      then length requestItems else startIndex + step in
    match map_result put_request (slice requestItems startIndex endIndex) with
    | Throw e => Some ([], Throw e)
    | Ok requests =>
        let params := batch_params table requests in
        let (err, response) := batchWrite params in
        if Conv.truthy err then
          Some ([params], Ok (createResponse stringify 501 err))
        else if (endIndex =? length requestItems)%nat then
          Some ([params], Ok (createResponse stringify 200 response))
        else
          match insertMultiObject f stringify batchWrite table
                  requestItems endIndex step with
          | None => None
          | Some (calls, outcome) => Some (params :: calls, outcome)
          end
    end.
Proof. reflexivity. Qed.

Section Paging.

Variable stringify : value -> value.
Variable batchWrite : value -> value * value.
Variable table : string.
Variable requestItems : list (list (string * value)).
Variable requests : list value.
Variable step : nat.

Hypothesis requests_prepared :
  Forall2 (fun p r => put_request p = Ok r) requestItems requests.
Hypothesis no_error : forall params, Conv.truthy (fst (batchWrite params)) = false.

Lemma length_requests : length requests = length requestItems.
Proof. symmetry. apply (Forall2_length requests_prepared). Qed.

Lemma insertMultiObject_pages n : forall startIndex,
  0 < step ->
  length requestItems - startIndex <= n ->
  exists calls,
    insertMultiObject (S n) stringify batchWrite table requestItems
      startIndex step
    = Some (calls,
            Ok (createResponse stringify 200
                  (snd (batchWrite (last calls VNull)))))
    /\ calls <> []
    /\ concat (map requests_of calls) = skipn startIndex requests
    /\ Forall (fun c => length (requests_of c) <= step) calls.
Proof.
  assert (Last : forall startIndex,
             length requestItems <= startIndex + step ->
             forall f, exists calls,
               insertMultiObject (S f) stringify batchWrite table
                 requestItems startIndex step
               = Some (calls,
                       Ok (createResponse stringify 200
                             (snd (batchWrite (last calls VNull)))))
               /\ calls <> []
               /\ concat (map requests_of calls) = skipn startIndex requests
               /\ Forall (fun c => length (requests_of c) <= step) calls).
  { intros startIndex Hle f. rewrite insertMultiObject_S. cbv zeta.
    destruct (Nat.leb_spec (length requestItems) (startIndex + step));
      [|lia].
    rewrite (map_result_slice _ _ _ _ requests_prepared).
    set (params := batch_params table
                     (slice requests startIndex (length requestItems))).
    pose proof (no_error params) as He.
    destruct (batchWrite params) as [err response] eqn:Eb.
    cbn [fst] in He. rewrite He, Nat.eqb_refl.
    exists [params]. split; [|split; [|split]].
    - cbn [last]. now rewrite Eb.
    - discriminate.
    - cbn [map concat requests_of params batch_params].
      rewrite app_nil_r. unfold slice.
      apply firstn_all2. rewrite length_skipn, length_requests. lia.
    - constructor; [|constructor].
      cbn [requests_of params batch_params]. unfold slice.
      rewrite length_firstn. lia. }
  induction n as [|n IH]; intros startIndex Hstep Hn.
  - apply Last. lia.
  - destruct (Nat.le_gt_cases (length requestItems) (startIndex + step))
      as [Hle|Hgt]; [now apply Last|].
    rewrite insertMultiObject_S. cbv zeta.
    destruct (Nat.leb_spec (length requestItems) (startIndex + step));
      [lia|].
    rewrite (map_result_slice _ _ _ _ requests_prepared).
    set (params := batch_params table
                     (slice requests startIndex (startIndex + step))).
    pose proof (no_error params) as He.
    destruct (batchWrite params) as [err response] eqn:Eb.
    cbn [fst] in He. rewrite He.
    destruct (Nat.eqb_spec (startIndex + step) (length requestItems));
      [lia|].
    destruct (IH (startIndex + step) Hstep ltac:(lia))
      as [calls [Hc [Hne [Hcat Hall]]]].
    rewrite Hc. exists (params :: calls). split; [|split; [|split]].
    + destruct calls as [|c calls']; [congruence|]. reflexivity.
    + discriminate.
    + cbn [map concat requests_of params batch_params].
      rewrite Hcat. unfold slice.
      replace (startIndex + step - startIndex) with step by lia.
      rewrite (Nat.add_comm startIndex step), <- skipn_skipn.
      apply firstn_skipn.
    + constructor; [|assumption].
      cbn [requests_of params batch_params]. unfold slice.
      rewrite length_firstn. lia.
Qed.

(** With a page size of 0 and items left, every call writes an empty
    page and asks for the next one from the same index. *)
Lemma insertMultiObject_step_0 fuel : forall startIndex,
  step = 0 ->
  startIndex < length requestItems ->
  insertMultiObject fuel stringify batchWrite table requestItems
    startIndex step = None.
Proof.
  induction fuel as [|f IH]; intros startIndex Hstep Hlt; [reflexivity|].
  rewrite insertMultiObject_S. cbv zeta.
  destruct (Nat.leb_spec (length requestItems) (startIndex + step)); [lia|].
  rewrite (map_result_slice _ _ _ _ requests_prepared).
  set (params := batch_params table
                   (slice requests startIndex (startIndex + step))).
  pose proof (no_error params) as He.
  destruct (batchWrite params) as [err response].
  cbn [fst] in He. rewrite He.
  destruct (Nat.eqb_spec (startIndex + step) (length requestItems)); [lia|].
  rewrite IH; [reflexivity | assumption | lia].
Qed.

End Paging.

(** X26: with a page size above 0, a client that reports no error and
    objects that do not hide [hasOwnProperty], [insertMultiObject]
    finishes: the calls it makes write the requests of every item from
    [startIndex] on, once and in order, at most [step] per call, and the
    callback gets the response with status 200 built from the response
    to the last call. *)
Theorem insertMultiObject_writes_all stringify batchWrite table requestItems
  requests startIndex step :
  Forall2 (fun p r => put_request p = Ok r) requestItems requests ->
  (forall params, Conv.truthy (fst (batchWrite params)) = false) ->
  0 < step ->
  exists fuel calls,
    insertMultiObject fuel stringify batchWrite table requestItems
      startIndex step
    = Some (calls,
            Ok (createResponse stringify 200
                  (snd (batchWrite (last calls VNull)))))
    /\ calls <> []
    /\ concat (map requests_of calls) = skipn startIndex requests
    /\ Forall (fun c => length (requests_of c) <= step) calls.
Proof.
  intros Hr He Hs.
  exists (S (length requestItems - startIndex)).
  now apply insertMultiObject_pages.
Qed.

(** X27: with a page size of 0 and an item left to write,
    [insertMultiObject] never calls back: every call writes an empty
    page and asks for the next page from the same index. *)
Theorem insertMultiObject_never_finishes stringify batchWrite table
  requestItems requests startIndex fuel :
  Forall2 (fun p r => put_request p = Ok r) requestItems requests ->
  (forall params, Conv.truthy (fst (batchWrite params)) = false) ->
  startIndex < length requestItems ->
  insertMultiObject fuel stringify batchWrite table requestItems
    startIndex 0 = None.
Proof.
  intros Hr He Hlt.
  now apply (insertMultiObject_step_0 stringify batchWrite table
               requestItems requests 0 Hr He).
Qed.

Lemma sample_requests :
  exists requests,
    Forall2 (fun p r => put_request p = Ok r) sample_items requests.
Proof. eexists. repeat constructor. Defined.

Lemma insertMultiObject_writes_all_witness :
  exists requests fuel calls,
    Forall2 (fun p r => put_request p = Ok r) sample_items requests
    /\ insertMultiObject fuel sample_stringify accepting_client "planets"
         sample_items 0 2
       = Some (calls,
               Ok (createResponse sample_stringify 200
                     (snd (accepting_client (last calls VNull)))))
    /\ concat (map requests_of calls) = skipn 0 requests.
Proof.
  destruct sample_requests as [requests Hr].
  destruct (insertMultiObject_writes_all sample_stringify accepting_client
              "planets" sample_items requests 0 2 Hr
              (fun _ => eq_refl) ltac:(lia))
    as [fuel [calls [H [_ [Hc _]]]]].
  exists requests, fuel, calls. auto.
Defined.

Lemma insertMultiObject_never_finishes_witness :
  insertMultiObject 50 sample_stringify accepting_client "planets"
    sample_items 1 0 = None.
Proof.
  destruct sample_requests as [requests Hr].
  apply (insertMultiObject_never_finishes sample_stringify accepting_client
           "planets" sample_items requests 1 50 Hr (fun _ => eq_refl)).
  simpl. lia.
Defined.

(** X28: the calls [insertMultiObject] makes before its last one were
    all answered without an error, and the response it calls back with
    reports the last call: status 501 and the error when the client
    answered it with one, status 200 and the response of the client
    otherwise.  No page is written after a page that failed. *)
Theorem insertMultiObject_stops_at_error stringify batchWrite table
  requestItems step fuel : forall startIndex calls response,
  insertMultiObject fuel stringify batchWrite table requestItems
    startIndex step = Some (calls, Ok response) ->
  exists earlier final,
    calls = (earlier ++ [final])%list
    /\ Forall (fun c => Conv.truthy (fst (batchWrite c)) = false) earlier
    /\ response
       = if Conv.truthy (fst (batchWrite final))
         then createResponse stringify 501 (fst (batchWrite final))
         else createResponse stringify 200 (snd (batchWrite final)).
Proof.
  induction fuel as [|f IH]; intros startIndex calls response H;
    [discriminate|].
  rewrite insertMultiObject_S in H. cbv zeta in H.
  destruct (map_result put_request _) as [requests|e]; [|discriminate].
  set (params := batch_params table requests) in *.
  destruct (batchWrite params) as [err answer] eqn:Eb.
  destruct (Conv.truthy err) eqn:Et.
  - injection H as <- <-. exists [], params. rewrite Eb. cbn [fst snd].
    rewrite Et. repeat split. constructor.
  - destruct (_ =? _)%nat.
    + injection H as <- <-. exists [], params. rewrite Eb. cbn [fst snd].
      rewrite Et. repeat split. constructor.
    + destruct (insertMultiObject f _ _ _ _ _ _) as [[calls' outcome]|] eqn:Er;
        [|discriminate].
      injection H as <- ->.
      destruct (IH _ _ _ Er) as [earlier [final [-> [Hall Hresp]]]].
      exists (params :: earlier), final. split; [reflexivity|].
      split; [|assumption]. constructor; [|assumption].
      rewrite Eb. exact Et.
Qed.

Lemma insertMultiObject_stops_at_error_witness :
  exists earlier final,
    [batch_params "planets"
       [VObj [("PutRequest",
               VObj [("Item", VObj [("name", VStr "a");
                                    ("version", VNum (Int 1));
                                    ("id", VStr "a")])])]]]
    = (earlier ++ [final])%list
    /\ Forall (fun c => Conv.truthy (fst (rejecting_client c)) = false) earlier
    /\ createResponse sample_stringify 501 (VStr "rejected")
       = if Conv.truthy (fst (rejecting_client final))
         then createResponse sample_stringify 501 (fst (rejecting_client final))
         else createResponse sample_stringify 200 (snd (rejecting_client final)).
Proof.
  apply (insertMultiObject_stops_at_error sample_stringify rejecting_client
           "planets" sample_items 1 5 0).
  reflexivity.
Defined.

(* ------------------------------------------------------------------ *)
(** ** Size accounting: numbers *)

(** X30: the size of a number is the length of the name and 1 byte when
    its decimal string has no dot; with a dot and [f] characters after
    it, 2 bytes are added for each of [i = 0, 2, ...] up to and
    including [f], that is [f div 2 + 1] times. *)
Theorem numberSizeCount_closed_form name x :
  numberSizeCount (Some name) x
  = Ok (String.length name + 1
        + if JsString.includes (JsNumber.toString x) "."
          then 2 * (String.length
                      (nth 1 (JsString.split (JsNumber.toString x) ".") "")
                    / 2 + 1)
          else 0).
Proof.
  unfold numberSizeCount. cbn [name_length bind].
  destruct (JsString.includes (JsNumber.toString x) ".").
  - now rewrite fpart_loop_closed.
  - now rewrite Nat.add_0_r.
Qed.
